(** * StockDatabase: alignment of price series and return statistics

    A shallow embedding of [StockDatabase.py].  The class is built once, in
    [__init__], by four steps: [_filterStocks], [sorted(keys)],
    [_getFilteredPrices] and the two statistics [_getCovarianceArray] and
    [_getCorrelationArray].

    Conventions of the embedding.
    - A Python [dict] is an insertion-ordered association list with distinct
      keys (CPython 3.7 and later).
    - A raised exception is a value [Raise e] of the type [result].
    - [dict.keys()] is a live view (Python 3): its iterator compares the size
      of the dictionary with the size it had when the iteration started, at
      every step, and raises [RuntimeError] when they differ.
    - [numpy] arrays carry their shape: 0-d, 1-d or 2-d.  [np.cov] and
      [np.corrcoef] follow NumPy 2.x.
    - Prices are elements of a numeric type with the operations the code
      uses.  Two instances are given: binary64 floats, on which the code can
      be evaluated, and the real numbers, for the algebraic identities that
      hold up to rounding only. *)

From Stdlib Require Import List String Ascii ZArith Bool Arith Lia.
From Stdlib Require Import Sorting.Sorted Sorting.Permutation.
From Stdlib Require Import PrimFloat.
From Stdlib Require Uint63.
From Stdlib Require Import Reals Lra.
Import ListNotations.

Set Implicit Arguments.

(** ** Exceptions *)

Inductive exn : Type :=
| RuntimeError   (* dictionary changed size during iteration *)
| KeyError.

Inductive result (A : Type) : Type :=
| Ok (a : A)
| Raise (e : exn).

Arguments Ok {A} a.
Arguments Raise {A} e.

Definition bind {A B : Type} (r : result A) (k : A -> result B) : result B :=
  match r with
  | Ok a => k a
  | Raise e => Raise e
  end.

Notation "x <- r ;; k" := (bind r (fun x => k))
  (at level 61, r at next level, right associativity).

Fixpoint mapM {A B : Type} (f : A -> result B) (l : list A) : result (list B) :=
  match l with
  | [] => Ok []
  | a :: l' => b <- f a ;; bs <- mapM f l' ;; Ok (b :: bs)
  end.

(** ** Python dictionaries *)

Module PyDict.
Section Dict.
Variables K V : Type.
Variable eq_dec : forall x y : K, {x = y} + {x <> y}.

Definition dict : Type := list (K * V).

(** [d[k]], [None] standing for [KeyError]. *)
Fixpoint get (d : dict) (k : K) : option V :=
  match d with
  | [] => None
  | (k', v) :: d' => if eq_dec k k' then Some v else get d' k
  end.

(** [k in d] *)
Definition contains (d : dict) (k : K) : bool :=
  match get d k with Some _ => true | None => false end.

(** [d[k] = v]: an existing key keeps its position, a new one goes last. *)
Fixpoint set (d : dict) (k : K) (v : V) : dict :=
  match d with
  | [] => [(k, v)]
  | (k', v') :: d' =>
      if eq_dec k k' then (k, v) :: d' else (k', v') :: set d' k v
  end.

(** [del d[k]] for a key that is present. *)
Fixpoint del (d : dict) (k : K) : dict :=
  match d with
  | [] => []
  | (k', v') :: d' => if eq_dec k k' then d' else (k', v') :: del d' k
  end.

Definition keys (d : dict) : list K := map fst d.
Definition values (d : dict) : list V := map snd d.
Definition items (d : dict) : list (K * V) := d.
Definition len (d : dict) : nat := List.length d.

(** The invariant of a dictionary: no key twice. *)
Definition wf (d : dict) : Prop := NoDup (keys d).

(** [for k in d.keys(): body] on the dictionary [d] itself.  [used] is the
    size recorded when the iterator was created.  Each call of [next]
    first compares it with the present size, also the call that would
    report the end of the iteration.  [pending] are the keys not yet
    visited, taken from the dictionary as it was at the start: a body that
    only deletes changes the size with the first deletion, and the
    iterator yields no key after that. *)
Fixpoint iter_keys (used : nat) (body : K -> dict -> dict)
         (pending : list K) (d : dict) : result dict :=
  if negb (len d =? used) then Raise RuntimeError
  else match pending with
       | [] => Ok d
       | k :: rest => iter_keys used body rest (body k d)
       end.

Definition for_keys (body : K -> dict -> dict) (d : dict) : result dict :=
  iter_keys (len d) body (keys d) d.
End Dict.
End PyDict.

Import PyDict.

(** ** [sorted] *)

Section Sorting.
Variable A : Type.
Variable leb : A -> A -> bool.

Fixpoint insert_sorted (x : A) (l : list A) : list A :=
  match l with
  | [] => [x]
  | y :: l' => if leb x y then x :: l else y :: insert_sorted x l'
  end.

(** Inserting from the right end keeps equal keys in their first order,
    as Python's stable sort does. *)
Definition sorted (l : list A) : list A := fold_right insert_sorted [] l.

(** The order of [leb], as a relation. *)
Definition le_of (a b : A) : Prop := leb a b = true.
End Sorting.

(** ** Stocks *)

Definition Ticker : Type := string.
(** A calendar date, as its day number. *)
Definition Date : Type := Z.

Record Stock (F : Type) : Type := mkStock {
  ticker : Ticker;
  ordered_date_dict : dict Date F
}.

Arguments mkStock {F} ticker ordered_date_dict.

Definition get_s {V : Type} := @get Ticker V string_dec.
Definition set_s {V : Type} := @set Ticker V string_dec.
Definition get_d {V : Type} := @get Date V Z.eq_dec.
Definition set_d {V : Type} := @set Date V Z.eq_dec.
Definition del_d {V : Type} := @del Date V Z.eq_dec.
Definition contains_d {V : Type} := @contains Date V Z.eq_dec.

Section Panel.
Variable F : Type.

(** [Config.MINIMUM_AMOUNT_DATA]: the module [Config] is not part of the
    sources at hand, its constant is a parameter. *)
Variable MINIMUM_AMOUNT_DATA : Z.

Definition StockDict : Type := dict Ticker (Stock F).
Definition DateDict : Type := dict Date (dict Ticker F).

(** [_filterStocks] *)
Definition filter_step (stock_dict new_stock_dict : StockDict)
           (tk : Ticker) : StockDict :=
  match get_s stock_dict tk with
  | Some s =>
      if (MINIMUM_AMOUNT_DATA <=? Z.of_nat (len (ordered_date_dict s)))%Z
      then set_s new_stock_dict tk s
      else new_stock_dict
  | None => new_stock_dict   (* not reached: [tk] is a key *)
  end.

Definition _filterStocks (stock_dict : StockDict) : StockDict :=
  fold_left (filter_step stock_dict) (keys stock_dict) [].

(** [_getFilteredPrices], first loop: dates to tickers to prices. *)
Definition record_price (s : Stock F) (date_dict : DateDict)
           (date : Date) : DateDict :=
  let date_dict :=
    if contains_d date_dict date then date_dict
    else set_d date_dict date [] in
  match get_d date_dict date, get_d (ordered_date_dict s) date with
  | Some inner, Some price =>
      set_d date_dict date (set_s inner (ticker s) price)
  | _, _ => date_dict   (* not reached *)
  end.

Definition record_stock (date_dict : DateDict) (s : Stock F) : DateDict :=
  fold_left (record_price s) (keys (ordered_date_dict s)) date_dict.

Definition build_date_dict (stock_dict : StockDict) : DateDict :=
  fold_left record_stock (values stock_dict) [].

(** Second loop: the body deletes a date with missing tickers. *)
Definition drop_if_incomplete (n : nat) (date : Date)
           (date_dict : DateDict) : DateDict :=
  match get_d date_dict date with
  | Some inner =>
      if List.length (keys inner) <? n then del_d date_dict date else date_dict
  | None => date_dict   (* not reached *)
  end.

Definition remove_incomplete (n : nat) (date_dict : DateDict)
  : result DateDict :=
  for_keys (drop_if_incomplete n) date_dict.

(** [OrderedDict(sorted(date_dict.items(), key=lambda t: t[0]))] *)
Definition date_leb (a b : Date * dict Ticker F) : bool :=
  (fst a <=? fst b)%Z.

Definition order_dates (date_dict : DateDict) : DateDict :=
  sorted date_leb (items date_dict).

(** The nested comprehension that gives the rows of the array. *)
Definition lookup_price (inner : dict Ticker F) (tk : Ticker) : result F :=
  match get_s inner tk with
  | Some p => Ok p
  | None => Raise KeyError
  end.

Definition panel_row (tickers : list Ticker) (ordered : DateDict)
           (date : Date) : result (list F) :=
  match get_d ordered date with
  | Some inner => mapM (lookup_price inner) tickers
  | None => Raise KeyError
  end.

Definition panel_rows (tickers : list Ticker) (stock_dict : StockDict)
  : result (list (list F)) :=
  date_dict <- remove_incomplete (List.length (keys stock_dict))
                 (build_date_dict stock_dict) ;;
  let ordered := order_dates date_dict in
  mapM (panel_row tickers ordered) (keys ordered).

(** *** Vocabulary of the properties of the panel *)

(** The test of [_filterStocks]. *)
Definition enough_data (s : Stock F) : bool :=
  (MINIMUM_AMOUNT_DATA <=? Z.of_nat (len (ordered_date_dict s)))%Z.

(** The stock has an observation for the date. *)
Definition reports (date : Date) (s : Stock F) : bool :=
  if in_dec Z.eq_dec date (keys (ordered_date_dict s)) then true else false.

(** What [date_dict] records comes from the stocks seen so far. *)
Definition sound (dd : DateDict) (seen : list (Stock F)) : Prop :=
  forall date inner, get_d dd date = Some inner ->
    wf inner /\
    forall tk p, get_s inner tk = Some p ->
      exists s, In s seen /\ ticker s = tk /\
                get_d (ordered_date_dict s) date = Some p.

(** The date has a price for [n] tickers at least: the second loop keeps
    it. *)
Definition complete (n : nat) (dd : DateDict) (date : Date) : Prop :=
  forall inner, get_d dd date = Some inner -> n <= List.length (keys inner).

(** The mapping is keyed by the tickers of its stocks, as [getInputData]
    builds it. *)
Definition keyed_by_ticker (sd : StockDict) : Prop :=
  forall k s, In (k, s) sd -> ticker s = k.
End Panel.

(** [self.tickers = sorted(self.stock_dict.keys())] *)
Definition canonical_tickers {F : Type} (stock_dict : StockDict F)
  : list Ticker :=
  sorted String.leb (keys stock_dict).

(** ** Numbers

    The arithmetic of [numpy.float64], as an interface.  [of_int] is the
    conversion of a Python integer; [fmaximum] and [fminimum] are
    [np.maximum] and [np.minimum]. *)

Class Numeric (F : Type) : Type := {
  of_int : Z -> F;
  fadd : F -> F -> F;
  fsub : F -> F -> F;
  fmul : F -> F -> F;
  fdiv : F -> F -> F;
  fsqrt : F -> F;
  fmaximum : F -> F -> F;
  fminimum : F -> F -> F
}.

(** IEEE 754 binary64.  A division by zero gives an infinity or a NaN and
    raises nothing (numpy warns only); a NaN operand gives a NaN. *)
Definition float_of_int (z : Z) : float :=
  if (z <? 0)%Z then PrimFloat.opp (of_uint63 (Uint63.of_Z (- z)))
  else of_uint63 (Uint63.of_Z z).

Definition float_maximum (x y : float) : float :=
  if is_nan x then x else if is_nan y then y
  else if PrimFloat.ltb x y then y else x.

Definition float_minimum (x y : float) : float :=
  if is_nan x then x else if is_nan y then y
  else if PrimFloat.ltb y x then y else x.

#[export] Instance Numeric_float : Numeric float := {
  of_int := float_of_int;
  fadd := PrimFloat.add;
  fsub := PrimFloat.sub;
  fmul := PrimFloat.mul;
  fdiv := PrimFloat.div;
  fsqrt := PrimFloat.sqrt;
  fmaximum := float_maximum;
  fminimum := float_minimum
}.

(** The real numbers: the same operations without rounding. *)
#[export] Instance Numeric_R : Numeric R := {
  of_int := IZR;
  fadd := Rplus;
  fsub := Rminus;
  fmul := Rmult;
  fdiv := Rdiv;
  fsqrt := sqrt;
  fmaximum := Rmax;
  fminimum := Rmin
}.

(** ** numpy arrays *)

Inductive ndarray (F : Type) : Type :=
| Arr0 (x : F)                                  (* shape () *)
| Arr1 (xs : list F)                            (* shape (len xs,) *)
| Arr2 (r c : nat) (rows : list (list F)).      (* shape (r, c) *)

Arguments Arr0 {F} x.
Arguments Arr1 {F} xs.
Arguments Arr2 {F} r c rows.

Fixpoint zip_with {A B C : Type} (f : A -> B -> C)
         (l : list A) (l' : list B) : list C :=
  match l, l' with
  | a :: t, b :: t' => f a b :: zip_with f t t'
  | _, _ => []
  end.

Section Numpy.
Context {F : Type} {num : Numeric F}.

Definition shape (a : ndarray F) : list nat :=
  match a with
  | Arr0 _ => []
  | Arr1 xs => [List.length xs]
  | Arr2 r c _ => [r; c]
  end.

(** [a[i, j]] of a 2-d array; an array of another rank has no such
    entry, nor has an index out of range. *)
Definition entry (a : ndarray F) (i j : nat) : option F :=
  match a with
  | Arr2 r c rows =>
      if (i <? r) && (j <? c)
      then match nth_error rows i with
           | Some row => nth_error row j
           | None => None
           end
      else None
  | _ => None
  end.

(** A property of every entry of an array. *)
Definition all_entries (P : F -> Prop) (a : ndarray F) : Prop :=
  match a with
  | Arr0 x => P x
  | Arr1 xs => Forall P xs
  | Arr2 _ _ rows => Forall (Forall P) rows
  end.

Definition some_entry (P : F -> Prop) (a : ndarray F) : Prop :=
  match a with
  | Arr0 x => P x
  | Arr1 xs => Exists P xs
  | Arr2 _ _ rows => Exists (Exists P) rows
  end.

(** [len(a)], the length of the first axis. *)
Definition nrows (a : ndarray F) : nat :=
  match a with
  | Arr0 _ => 0
  | Arr1 xs => List.length xs
  | Arr2 r _ _ => r
  end.

(** [np.array(rows, dtype=np.float64)] for rows of one length: an empty
    list of rows gives a 1-d array of shape (0,). *)
Definition np_array (rows : list (list F)) : ndarray F :=
  match rows with
  | [] => Arr1 []
  | row :: _ => Arr2 (List.length rows) (List.length row) rows
  end.

(** [a[1:]] and [a[:-1]], slices of the first axis (an array built by
    [np_array] is never 0-d). *)
Definition slice_from_1 (a : ndarray F) : ndarray F :=
  match a with
  | Arr0 x => Arr0 x
  | Arr1 xs => Arr1 (tl xs)
  | Arr2 r c rows => Arr2 (pred r) c (tl rows)
  end.

Definition slice_to_last (a : ndarray F) : ndarray F :=
  match a with
  | Arr0 x => Arr0 x
  | Arr1 xs => Arr1 (removelast xs)
  | Arr2 r c rows => Arr2 (pred r) c (removelast rows)
  end.

(** [a / b], elementwise, for two arrays of one shape. *)
Definition nd_div (a b : ndarray F) : ndarray F :=
  match a, b with
  | Arr0 x, Arr0 y => Arr0 (fdiv x y)
  | Arr1 xs, Arr1 ys => Arr1 (zip_with fdiv xs ys)
  | Arr2 r c rows, Arr2 _ _ rows' =>
      Arr2 r c (zip_with (zip_with fdiv) rows rows')
  | _, _ => a
  end.

(** A sum, from the left.  numpy adds the terms of a long array in
    another order (pairwise, or as BLAS does for [dot]); over the real
    numbers the order is immaterial, and so it is for the binary64 sums
    evaluated below, which are exact or not finite. *)
Definition fsum (xs : list F) : F := fold_left fadd xs (of_int 0).

Definition mean (n : nat) (xs : list F) : F :=
  fdiv (fsum xs) (of_int (Z.of_nat n)).

Definition dot (xs ys : list F) : F := fsum (zip_with fmul xs ys).

Definition column (rows : list (list F)) (j : nat) : list F :=
  map (fun row => nth j row (of_int 0)) rows.

(** The transpose of an array of shape (r, c), as its c columns. *)
Definition transpose (c : nat) (rows : list (list F)) : list (list F) :=
  map (column rows) (seq 0 c).

(** [X = array(m, ndmin=2); if not rowvar and m.ndim != 1: X = X.T]: the
    variables, one per row, and the number of observations [X.shape[1]]. *)
Definition design (m : ndarray F) (rowvar : bool) : list (list F) * nat :=
  match m with
  | Arr0 x => ([[x]], 1)
  | Arr1 xs => ([xs], List.length xs)
  | Arr2 r c rows => if rowvar then (rows, c) else (transpose c rows, r)
  end.

(** [a.squeeze()]: the axes of length one are dropped. *)
Definition squeeze (a : ndarray F) : ndarray F :=
  match a with
  | Arr0 x => Arr0 x
  | Arr1 [x] => Arr0 x
  | Arr1 xs => Arr1 xs
  | Arr2 1 1 [[x]] => Arr0 x
  | Arr2 1 _ [row] => Arr1 row
  | Arr2 _ 1 rows => Arr1 (column rows 0)
  | Arr2 r c rows => Arr2 r c rows
  end.

(** [np.cov(m, rowvar=rowvar, ddof=ddof)] without weights. *)
Definition np_cov (m : ndarray F) (rowvar : bool) (ddof : Z) : ndarray F :=
  let '(X, n_obs) := design m rowvar in
  match X with
  | [] => Arr2 0 0 []
  | _ =>
      let avg := map (mean n_obs) X in
      let fact := (Z.of_nat n_obs - ddof)%Z in
      let fact := if (fact <=? 0)%Z then of_int 0 else of_int fact in
      let X := zip_with (fun xs a => map (fun x => fsub x a) xs) X avg in
      let c := map (fun xj => map (fun xk => dot xj xk) X) X in
      let c := map (map (fun v => fmul v (fdiv (of_int 1) fact))) c in
      squeeze (Arr2 (List.length X) (List.length X) c)
  end.

Definition diag (rows : list (list F)) : list F :=
  map (fun i => nth i (nth i rows []) (of_int 0))
      (seq 0 (List.length rows)).

(** [np.clip(v, -1, 1)] *)
Definition clip (v : F) : F :=
  fminimum (fmaximum v (of_int (-1))) (of_int 1).

(** [np.corrcoef(x, rowvar=rowvar, ddof=ddof)].  The argument [ddof] has
    no effect: the covariance is taken with numpy's default, N - 1.  A
    0-d covariance has no diagonal, and [c / c] is returned. *)
Definition np_corrcoef (x : ndarray F) (rowvar : bool) (ddof : Z)
  : ndarray F :=
  match np_cov x rowvar 1 with
  | Arr0 v => Arr0 (fdiv v v)
  | Arr1 xs => Arr1 xs   (* not reached: a covariance is never 1-d *)
  | Arr2 r c rows =>
      let stddev := map fsqrt (diag rows) in
      let rows := zip_with (fun row s => map (fun v => fdiv v s) row)
                           rows stddev in
      let rows := map (fun row => zip_with fdiv row stddev) rows in
      Arr2 r c (map (map clip) rows)
  end.

(** [self.price_array[1:] / self.price_array[:-1]] *)
Definition price_change_array (price_array : ndarray F) : ndarray F :=
  nd_div (slice_from_1 price_array) (slice_to_last price_array).

Definition _getCovarianceArray (price_array : ndarray F) : ndarray F :=
  np_cov (price_change_array price_array) false 0.

Definition _getCorrelationArray (price_array : ndarray F) : ndarray F :=
  np_corrcoef (price_change_array price_array) false 0.

Definition _getFilteredPrices (tickers : list Ticker)
           (stock_dict : StockDict F) : result (ndarray F) :=
  rows <- panel_rows tickers stock_dict ;;
  Ok (np_array rows).

Record StockDatabase : Type := mkStockDatabase {
  stock_dict : StockDict F;
  tickers : list Ticker;
  price_array : ndarray F;
  covar_array : ndarray F;
  correl_array : ndarray F
}.

Definition __init__ (MINIMUM_AMOUNT_DATA : Z) (stock_dict : StockDict F)
  : result StockDatabase :=
  let stock_dict := _filterStocks MINIMUM_AMOUNT_DATA stock_dict in
  let tickers := canonical_tickers stock_dict in
  price_array <- _getFilteredPrices tickers stock_dict ;;
  Ok (mkStockDatabase stock_dict tickers price_array
        (_getCovarianceArray price_array)
        (_getCorrelationArray price_array)).

(** *** The entries of [np.cov] and [np.corrcoef], in closed form *)

(** The normalisation [fact] of [np.cov]. *)
Definition fact_of (n_obs : nat) (ddof : Z) : F :=
  if (Z.of_nat n_obs - ddof <=? 0)%Z then of_int 0
  else of_int (Z.of_nat n_obs - ddof).

(** Column [j] of the returns, minus its mean. *)
Definition centered (ret : list (list F)) (n_obs j : nat) : list F :=
  map (fun x => fsub x (mean n_obs (column ret j))) (column ret j).

Definition cov_entry (ret : list (list F)) (n_obs : nat) (fact : F)
           (j k : nat) : F :=
  fmul (dot (centered ret n_obs j) (centered ret n_obs k))
       (fdiv (of_int 1) fact).

Definition cov_matrix (ret : list (list F)) (n_obs n : nat) (fact : F)
  : list (list F) :=
  map (fun j => map (cov_entry ret n_obs fact j) (seq 0 n)) (seq 0 n).

(** The correlation of at least two variables. *)
Definition corr_entry (ret : list (list F)) (n_obs : nat) (j k : nat) : F :=
  let c := cov_entry ret n_obs (fact_of n_obs 1) in
  clip (fdiv (fdiv (c j k) (fsqrt (c j j))) (fsqrt (c k k))).
End Numpy.

Arguments StockDatabase F : clear implicits.

(** ** The covariance as the specification words it

    [Cov[j,k] = mean((ret[:,j] - mean(ret[:,j])) * (ret[:,k] - mean(ret[:,k])))],
    the means being sums divided by the number N of rows of [ret]. *)

Definition population_cov (ret : list (list R)) (j k : nat) : R :=
  let n_obs := List.length ret in
  let mean_j := mean n_obs (column ret j) in
  let mean_k := mean n_obs (column ret k) in
  mean n_obs
       (map (fun row => ((nth j row 0 - mean_j) * (nth k row 0 - mean_k))%R)
            ret).

(** ** Vectors of real numbers

    The variance of a portfolio of weights [w] under the covariance [C] is
    the quadratic form [w' C w]. *)

Definition quadratic_form (w : list R) (C : list (list R)) : R :=
  dot w (map (fun row => dot row w) C).

Definition vadd (xs ys : list R) : list R := zip_with Rplus xs ys.

Definition vscale (t : R) (xs : list R) : list R := map (Rmult t) xs.

(** The combination of the vectors [vs] with the weights [w], all of
    length [n]. *)
Fixpoint lincomb (n : nat) (vs : list (list R)) (w : list R) : list R :=
  match vs, w with
  | v :: vs', t :: w' => vadd (vscale t v) (lincomb n vs' w')
  | _, _ => repeat 0%R n
  end.

(** The sum of products that both normalisations divide. *)
Definition cross (ret : list (list R)) (j k : nat) : R :=
  dot (centered ret (List.length ret) j) (centered ret (List.length ret) k).

(** ** The caller: [getInputData] of [main.py]

    The loop that creates the stock objects and the construction of the
    database that follows it.  The class [Stock] and the module [DataIO]
    are not part of the sources at hand: the constructor of [Stock] is a
    parameter, and so are the ticker list, the raw data and the expense
    ratios that [DataIO] returns. *)

Section InputData.
Variables F Raw Expense : Type.
Variable Stock_ : Raw -> Ticker -> Expense -> Stock F.

(** [d[tk]] *)
Definition subscript {V : Type} (d : dict Ticker V) (tk : Ticker)
  : result V :=
  match get_s d tk with
  | Some v => Ok v
  | None => Raise KeyError
  end.

(** [for ticker in ticker_list: stock_dict[ticker] = Stock(...)] *)
Fixpoint create_stocks (raw_data : dict Ticker Raw)
         (expense_ratio_dict : dict Ticker Expense)
         (ticker_list : list Ticker) (stock_dict : StockDict F)
  : result (StockDict F) :=
  match ticker_list with
  | [] => Ok stock_dict
  | tk :: rest =>
      raw <- subscript raw_data tk ;;
      expense <- subscript expense_ratio_dict tk ;;
      create_stocks raw_data expense_ratio_dict rest
                    (set_s stock_dict tk (Stock_ raw tk expense))
  end.
End InputData.

(** [stock_db = StockDatabase(stock_dict)] on the mapping of the loop. *)
Definition getInputData_stock_db {F Raw Expense : Type} {num : Numeric F}
           (Stock_ : Raw -> Ticker -> Expense -> Stock F)
           (MINIMUM_AMOUNT_DATA : Z)
           (ticker_list : list Ticker) (raw_data : dict Ticker Raw)
           (expense_ratio_dict : dict Ticker Expense)
  : result (StockDatabase F) :=
  stock_dict <- create_stocks Stock_ raw_data expense_ratio_dict
                  ticker_list [] ;;
  __init__ MINIMUM_AMOUNT_DATA stock_dict.

(** A stand-in for the constructor: the raw data is the date dictionary. *)
Definition sample_Stock (raw : dict Date float) (tk : Ticker) (e : float)
  : Stock float :=
  mkStock tk raw.

Definition sample_raw_data : dict Ticker (dict Date float) :=
  [ ("A"%string, [(1%Z, 1%float); (2%Z, 2%float); (3%Z, 4%float)]);
    ("B"%string, [(1%Z, 1%float); (2%Z, 3%float); (3%Z, 6%float)]) ].

Definition sample_expenses : dict Ticker float :=
  [ ("A"%string, 0.5%float); ("B"%string, 0.25%float) ].

(** ** Non-finite floats *)

Definition NaN (x : float) : Prop := is_nan x = true.

(** An entry that is a NaN or an infinity. *)
Definition non_finite (x : float) : Prop := is_finite x = false.

(** ** Sample inputs *)


Definition stock_of (tk : Ticker) (prices : list (Date * float))
  : Ticker * Stock float :=
  (tk, mkStock tk prices).

Definition two_assets_partial : StockDict float :=
  [ stock_of "A"%string [(1%Z, 10%float); (2%Z, 11%float)];
    stock_of "B"%string [(1%Z, 20%float)] ].

Definition two_assets_full : StockDict float :=
  [ stock_of "B"%string [(3%Z, 6%float); (1%Z, 1%float); (2%Z, 3%float)];
    stock_of "A"%string [(1%Z, 1%float); (2%Z, 2%float); (3%Z, 4%float)] ].

Definition one_asset : StockDict float :=
  [ stock_of "A"%string [(1%Z, 1%float); (2%Z, 2%float); (3%Z, 3%float)] ].

Definition one_observation : StockDict float :=
  [ stock_of "A"%string [(1%Z, 5%float)] ].

Definition zero_price : StockDict float :=
  [ stock_of "A"%string [(1%Z, 1%float); (2%Z, 0%float); (3%Z, 1%float)];
    stock_of "B"%string [(1%Z, 1%float); (2%Z, 2%float); (3%Z, 3%float)] ].


(** Three assets over five days, the third with three observations. *)
Definition three_assets : StockDict float :=
  [ stock_of "C"%string [(1%Z, 7%float); (3%Z, 8%float); (5%Z, 9%float)];
    stock_of "A"%string [(1%Z, 1%float); (2%Z, 2%float); (3%Z, 3%float);
                         (4%Z, 5%float); (5%Z, 4%float)];
    stock_of "B"%string [(5%Z, 30%float); (4%Z, 20%float); (3%Z, 40%float);
                         (2%Z, 20%float); (1%Z, 10%float)] ].

(** A mapping whose key is not the ticker of its stock. *)
Definition mismatched_key : StockDict float :=
  [ ("X"%string, mkStock "A"%string [(1%Z, 1%float); (2%Z, 2%float)]) ].

(** * Properties *)

(** ** Dictionaries *)

Section DictFacts.
Variables K V : Type.
Variable eq_dec : forall x y : K, {x = y} + {x <> y}.

Lemma get_set_same (d : dict K V) k v : get eq_dec (set eq_dec d k v) k = Some v.
Proof.
  induction d as [|[k' v'] d IH]; simpl.
  - destruct (eq_dec k k); congruence.
  - destruct (eq_dec k k') as [->|Hne]; simpl.
    + destruct (eq_dec k' k'); congruence.
    + destruct (eq_dec k k'); [contradiction|assumption].
Qed.

Lemma get_set_other (d : dict K V) k k' v :
  k <> k' -> get eq_dec (set eq_dec d k v) k' = get eq_dec d k'.
Proof.
  intros Hne. induction d as [|[k0 v0] d IH]; simpl.
  - destruct (eq_dec k' k); congruence.
  - destruct (eq_dec k k0) as [->|Hk]; simpl.
    + destruct (eq_dec k' k0); congruence.
    + destruct (eq_dec k' k0); auto.
Qed.

Lemma get_Some_in_keys (d : dict K V) k v :
  get eq_dec d k = Some v -> In k (keys d).
Proof.
  induction d as [|[k' v'] d IH]; simpl; [discriminate|].
  destruct (eq_dec k k'); auto.
Qed.

Lemma in_keys_get (d : dict K V) k :
  In k (keys d) -> exists v, get eq_dec d k = Some v.
Proof.
  induction d as [|[k' v'] d IH]; simpl; [tauto|].
  intros [->|Hin].
  - destruct (eq_dec k k); [eauto|congruence].
  - destruct (eq_dec k k'); eauto.
Qed.

Lemma get_None_iff (d : dict K V) k :
  get eq_dec d k = None <-> ~ In k (keys d).
Proof.
  split.
  - intros Hn Hin. apply in_keys_get in Hin as [v Hv]. congruence.
  - intros Hn. destruct (get eq_dec d k) eqn:E; [|reflexivity].
    apply get_Some_in_keys in E. contradiction.
Qed.

Lemma get_in_items (d : dict K V) k v : get eq_dec d k = Some v -> In (k, v) d.
Proof.
  induction d as [|[k' v'] d IH]; simpl; [discriminate|].
  destruct (eq_dec k k') as [->|]; intros H.
  - left. congruence.
  - right. auto.
Qed.

Lemma in_items_get (d : dict K V) k v :
  wf d -> In (k, v) d -> get eq_dec d k = Some v.
Proof.
  unfold wf. induction d as [|[k' v'] d IH]; simpl; [tauto|].
  intros Hnd [Heq|Hin]; inversion Hnd as [|? ? Hnotin Hnd']; subst.
  - inversion Heq; subst. destruct (eq_dec k k); congruence.
  - destruct (eq_dec k k') as [->|]; [|auto].
    exfalso. apply Hnotin. change (In (fst (k', v)) (map fst d)).
    now apply in_map.
Qed.

Lemma keys_set_present (d : dict K V) k v :
  In k (keys d) -> keys (set eq_dec d k v) = keys d.
Proof.
  induction d as [|[k' v'] d IH]; simpl; [tauto|].
  intros Hin. destruct (eq_dec k k') as [->|Hne]; simpl; [reflexivity|].
  f_equal. apply IH. destruct Hin; congruence.
Qed.

Lemma keys_set_absent (d : dict K V) k v :
  ~ In k (keys d) -> keys (set eq_dec d k v) = keys d ++ [k].
Proof.
  induction d as [|[k' v'] d IH]; simpl; [reflexivity|].
  intros Hn. destruct (eq_dec k k') as [->|Hne]; simpl.
  - tauto.
  - f_equal. apply IH. tauto.
Qed.

Lemma in_keys_set (d : dict K V) k v k' :
  In k' (keys (set eq_dec d k v)) <-> k' = k \/ In k' (keys d).
Proof.
  destruct (in_dec eq_dec k (keys d)) as [Hin|Hn].
  - rewrite keys_set_present by assumption.
    split; [tauto|]. intros [->|]; assumption.
  - rewrite keys_set_absent by assumption.
    rewrite in_app_iff. simpl. split; intros; intuition congruence.
Qed.

Lemma wf_set (d : dict K V) k v : wf d -> wf (set eq_dec d k v).
Proof.
  unfold wf. intros Hnd.
  destruct (in_dec eq_dec k (keys d)) as [Hin|Hn].
  - now rewrite keys_set_present.
  - rewrite keys_set_absent by assumption.
    apply NoDup_app.
    + assumption.
    + constructor; [simpl; tauto | constructor].
    + intros a Ha [<-|[]]. contradiction.
Qed.

Lemma len_set_le (d : dict K V) k v : len d <= len (set eq_dec d k v).
Proof.
  unfold len. induction d as [|[k' v'] d IH]; simpl; [lia|].
  destruct (eq_dec k k'); simpl; lia.
Qed.

Lemma len_del (d : dict K V) k :
  In k (keys d) -> S (len (del eq_dec d k)) = len d.
Proof.
  unfold len. induction d as [|[k' v'] d IH]; simpl; [tauto|].
  intros Hin. destruct (eq_dec k k') as [->|Hne]; simpl; [reflexivity|].
  f_equal. apply IH. destruct Hin; congruence.
Qed.

(** The iterator of a dictionary whose size has changed raises. *)
Lemma iter_keys_resized used body pending (d : dict K V) :
  len d <> used -> iter_keys used body pending d = Raise RuntimeError.
Proof.
  intros Hne. destruct pending; simpl;
    destruct (Nat.eqb_spec (len d) used); simpl; congruence.
Qed.

(** A loop whose body leaves the dictionary alone returns it. *)
Lemma iter_keys_unchanged body pending (d : dict K V) :
  (forall k, In k pending -> body k d = d) ->
  iter_keys (len d) body pending d = Ok d.
Proof.
  induction pending as [|k rest IH]; intros Hb; simpl;
    rewrite Nat.eqb_refl; simpl; [reflexivity|].
  rewrite Hb by (left; reflexivity). apply IH.
  intros k' Hk'. apply Hb. now right.
Qed.

(** A loop whose body changes the size for some key raises, whatever the
    body does for the keys before it. *)
Lemma iter_keys_resizing body pending (d : dict K V) k :
  In k pending ->
  (forall k', In k' pending -> body k' d = d \/ len (body k' d) <> len d) ->
  len (body k d) <> len d ->
  iter_keys (len d) body pending d = Raise RuntimeError.
Proof.
  induction pending as [|k0 rest IH]; intros Hin Hb Hk; [destruct Hin|].
  simpl. rewrite Nat.eqb_refl. simpl.
  destruct (Hb k0 (or_introl eq_refl)) as [Hsame|Hsize].
  - rewrite Hsame. destruct Hin as [->|Hin]; [congruence|].
    apply IH; auto. intros k' Hk'. apply Hb. now right.
  - now apply iter_keys_resized.
Qed.
End DictFacts.

(** ** The filter stage *)

Section FilterFacts.
Variable F : Type.
Variable MINIMUM_AMOUNT_DATA : Z.

Lemma filter_step_get (sd acc : StockDict F) k tk :
  get_s (filter_step MINIMUM_AMOUNT_DATA sd acc k) tk =
  if string_dec k tk then
    match get_s sd tk with
    | Some s => if enough_data MINIMUM_AMOUNT_DATA s then Some s else get_s acc tk
    | None => get_s acc tk
    end
  else get_s acc tk.
Proof.
  unfold filter_step, enough_data.
  destruct (string_dec k tk) as [->|Hne].
  - destruct (get_s sd tk) as [s|]; [|reflexivity].
    destruct (_ <=? _)%Z; [|reflexivity].
    unfold get_s, set_s. apply get_set_same.
  - destruct (get_s sd k) as [s|]; [|reflexivity].
    destruct (_ <=? _)%Z; [|reflexivity].
    unfold get_s, set_s. now apply get_set_other.
Qed.

Lemma filter_fold_get (sd : StockDict F) ks acc tk :
  get_s (fold_left (filter_step MINIMUM_AMOUNT_DATA sd) ks acc) tk =
  if in_dec string_dec tk ks then
    match get_s sd tk with
    | Some s => if enough_data MINIMUM_AMOUNT_DATA s then Some s else get_s acc tk
    | None => get_s acc tk
    end
  else get_s acc tk.
Proof.
  revert acc. induction ks as [|k ks IH]; intros acc; [reflexivity|].
  cbn [fold_left]. rewrite IH, filter_step_get.
  destruct (in_dec string_dec tk ks) as [Hin|Hn];
    destruct (in_dec string_dec tk (k :: ks)) as [Hin'|Hn'];
    destruct (string_dec k tk) as [->|Hne];
    destruct (get_s sd tk) as [s|]; try destruct (enough_data MINIMUM_AMOUNT_DATA s);
    try reflexivity;
    solve [ exfalso; apply Hn'; simpl; auto
          | exfalso; destruct Hin'; [congruence | contradiction] ].
Qed.

Lemma filterStocks_get (sd : StockDict F) tk :
  get_s (_filterStocks MINIMUM_AMOUNT_DATA sd) tk =
  match get_s sd tk with
  | Some s => if enough_data MINIMUM_AMOUNT_DATA s then Some s else None
  | None => None
  end.
Proof.
  unfold _filterStocks. rewrite filter_fold_get.
  destruct (get_s sd tk) as [s|] eqn:E.
  - destruct (in_dec string_dec tk (keys sd)) as [|Hn]; [reflexivity|].
    exfalso. apply Hn. eapply get_Some_in_keys. exact E.
  - destruct (in_dec string_dec tk (keys sd)); reflexivity.
Qed.

Lemma filter_step_wf (sd acc : StockDict F) k :
  wf acc -> wf (filter_step MINIMUM_AMOUNT_DATA sd acc k).
Proof.
  intros Hwf. unfold filter_step.
  destruct (get_s sd k); [|assumption].
  destruct (_ <=? _)%Z; [|assumption].
  now apply wf_set.
Qed.

Lemma filterStocks_wf (sd : StockDict F) :
  wf (_filterStocks MINIMUM_AMOUNT_DATA sd).
Proof.
  unfold _filterStocks.
  assert (H : forall ks acc, wf acc ->
            wf (fold_left (filter_step MINIMUM_AMOUNT_DATA sd) ks acc)).
  { induction ks as [|k ks IH]; intros acc Hacc; [assumption|].
    simpl. apply IH. now apply filter_step_wf. }
  apply H. constructor.
Qed.
End FilterFacts.

(** ** Folds and monadic maps *)

Lemma fold_left_prefix_ind (A B : Type) (f : A -> B -> A)
      (P : A -> list B -> Prop) (l : list B) (a : A) :
  P a [] ->
  (forall a pre x, P a pre -> P (f a x) (pre ++ [x])) ->
  P (fold_left f l a) l.
Proof.
  intros H0 Hstep.
  assert (G : forall l pre a, P a pre -> P (fold_left f l a) (pre ++ l)).
  { clear l a H0. induction l as [|x l IH]; intros pre a Ha; simpl.
    - now rewrite app_nil_r.
    - replace (pre ++ x :: l) with ((pre ++ [x]) ++ l)
        by (rewrite <- app_assoc; reflexivity).
      apply IH. now apply Hstep. }
  apply (G l [] a H0).
Qed.

Lemma mapM_Ok (A B : Type) (f : A -> result B) l bs :
  mapM f l = Ok bs -> Forall2 (fun a b => f a = Ok b) l bs.
Proof.
  revert bs. induction l as [|a l IH]; intros bs; simpl.
  - intros [= <-]. constructor.
  - destruct (f a) as [b|] eqn:Ea; simpl; [|discriminate].
    destruct (mapM f l) as [bs'|]; simpl; [|discriminate].
    intros [= <-]. constructor; auto.
Qed.

Lemma mapM_length (A B : Type) (f : A -> result B) l bs :
  mapM f l = Ok bs -> List.length bs = List.length l.
Proof.
  intros H. apply mapM_Ok in H. symmetry. eapply Forall2_length. exact H.
Qed.

Lemma mapM_all_Ok (A B : Type) (f : A -> result B) (g : A -> B) l :
  (forall a, In a l -> f a = Ok (g a)) -> mapM f l = Ok (map g l).
Proof.
  induction l as [|a l IH]; intros H; simpl; [reflexivity|].
  rewrite (H a) by (left; reflexivity). simpl.
  rewrite IH by (intros; apply H; now right). reflexivity.
Qed.

Lemma filter_length_lt (A : Type) (f : A -> bool) l x :
  In x l -> f x = false -> List.length (filter f l) < List.length l.
Proof.
  induction l as [|a l IH]; simpl; [tauto|].
  intros [->|Hin] Hx.
  - rewrite Hx. pose proof (filter_length_le f l). lia.
  - specialize (IH Hin Hx). destruct (f a); simpl; lia.
Qed.

(** ** The first loop of [_getFilteredPrices] *)

Section DateDictFacts.
Variable F : Type.

Lemma record_price_eq (s : Stock F) dd date :
  record_price s dd date =
  match get_d dd date, get_d (ordered_date_dict s) date with
  | Some inner, Some p => set_d dd date (set_s inner (ticker s) p)
  | Some _, None => dd
  | None, Some p => set_d (set_d dd date []) date (set_s [] (ticker s) p)
  | None, None => set_d dd date []
  end.
Proof.
  unfold record_price, contains_d, contains, get_d, set_d.
  destruct (@get Date _ Z.eq_dec dd date) as [inner|] eqn:E; cbn;
    rewrite ?E, ?get_set_same; reflexivity.
Qed.

Lemma record_price_keys (s : Stock F) dd date d' :
  In d' (keys (record_price s dd date)) <-> d' = date \/ In d' (keys dd).
Proof.
  rewrite record_price_eq. unfold get_d, set_d.
  destruct (@get Date _ Z.eq_dec dd date) as [inner|] eqn:E;
    destruct (@get Date _ Z.eq_dec (ordered_date_dict s) date);
    rewrite ?in_keys_set; try tauto.
  split; [tauto|]. intros [->|]; [|assumption].
  eapply get_Some_in_keys. exact E.
Qed.

Lemma record_price_other (s : Stock F) dd date d' :
  date <> d' -> get_d (record_price s dd date) d' = get_d dd d'.
Proof.
  intros Hne. rewrite record_price_eq. unfold get_d, set_d.
  destruct (@get Date _ Z.eq_dec dd date) as [inner|];
    destruct (@get Date _ Z.eq_dec (ordered_date_dict s) date);
    rewrite ?get_set_other; auto.
Qed.

Lemma record_price_same (s : Stock F) dd date p :
  get_d (ordered_date_dict s) date = Some p ->
  get_d (record_price s dd date) date =
  Some (set_s (match get_d dd date with Some i => i | None => [] end)
              (ticker s) p).
Proof.
  intros Hp. rewrite record_price_eq, Hp.
  destruct (get_d dd date) as [inner|]; unfold get_d, set_d;
    apply get_set_same.
Qed.

Lemma sound_weaken (dd : DateDict F) seen s :
  sound dd seen -> sound dd (seen ++ [s]).
Proof.
  intros H date inner Hg. destruct (H date inner Hg) as [Hwf Hk].
  split; [assumption|]. intros tk p Htk.
  destruct (Hk tk p Htk) as (s' & Hin & Ht & Hd).
  exists s'. rewrite in_app_iff. auto.
Qed.

Lemma record_price_sound (dd : DateDict F) seen s date :
  In s seen -> In date (keys (ordered_date_dict s)) ->
  sound dd seen -> sound (record_price s dd date) seen.
Proof.
  intros Hs Hd H date' inner' Hg.
  destruct (Z.eq_dec date date') as [<-|Hne].
  - destruct (in_keys_get Z.eq_dec _ _ Hd) as [p Hp].
    rewrite (@record_price_same s dd date p Hp) in Hg. injection Hg as <-.
    assert (Hold : wf (match get_d dd date with Some i => i | None => [] end)
                   /\ forall tk q,
                        get_s (match get_d dd date with
                               | Some i => i | None => [] end) tk = Some q ->
                        exists s0, In s0 seen /\ ticker s0 = tk /\
                                   get_d (ordered_date_dict s0) date = Some q).
    { destruct (get_d dd date) as [i|] eqn:E.
      - exact (H date i E).
      - split; [constructor | intros tk q; discriminate]. }
    destruct Hold as [Hwf Hk]. split.
    + unfold set_s. now apply wf_set.
    + intros tk q Htk. unfold get_s, set_s in Htk.
      destruct (string_dec (ticker s) tk) as [<-|Hne].
      * rewrite get_set_same in Htk. injection Htk as <-. exists s. auto.
      * rewrite get_set_other in Htk by assumption. now apply Hk.
  - rewrite record_price_other in Hg by assumption. exact (H date' inner' Hg).
Qed.

Lemma record_stock_sound (dd : DateDict F) seen s :
  sound dd seen -> sound (record_stock dd s) (seen ++ [s]).
Proof.
  intros H. apply sound_weaken with (s := s) in H.
  unfold record_stock.
  assert (G : forall ds dd0,
             incl ds (keys (ordered_date_dict s)) ->
             sound dd0 (seen ++ [s]) ->
             sound (fold_left (record_price s) ds dd0) (seen ++ [s])).
  { induction ds as [|d ds IH]; intros dd0 Hincl H0; simpl; [assumption|].
    apply IH.
    - intros x Hx. apply Hincl. now right.
    - apply record_price_sound; auto.
      + rewrite in_app_iff. right. now left.
      + apply Hincl. now left. }
  apply G; [apply incl_refl | assumption].
Qed.

Lemma build_date_dict_sound (sd : StockDict F) :
  sound (build_date_dict sd) (values sd).
Proof.
  unfold build_date_dict.
  apply (fold_left_prefix_ind (@record_stock F)
           (fun dd seen => sound dd seen)).
  - intros date inner Hg. discriminate.
  - intros a pre x. apply record_stock_sound.
Qed.

Lemma record_stock_keys dd (s : Stock F) d' :
  In d' (keys (record_stock dd s)) <->
  In d' (keys (ordered_date_dict s)) \/ In d' (keys dd).
Proof.
  unfold record_stock. generalize (keys (ordered_date_dict s)) as ds.
  intros ds. revert dd. induction ds as [|d ds IH]; intros dd; simpl.
  - tauto.
  - rewrite IH, record_price_keys. intuition congruence.
Qed.

Lemma build_date_dict_keys (sd : StockDict F) date :
  In date (keys (build_date_dict sd)) <->
  exists s, In s (values sd) /\ In date (keys (ordered_date_dict s)).
Proof.
  unfold build_date_dict.
  apply (fold_left_prefix_ind (@record_stock F)
           (fun dd seen => In date (keys dd) <->
              exists s, In s seen /\ In date (keys (ordered_date_dict s)))).
  - simpl. split; [tauto | intros (s & [] & _)].
  - intros a pre x IH. rewrite record_stock_keys, IH. split.
    + intros [Hx|(s & Hs & Hd)].
      * exists x. rewrite in_app_iff. simpl. auto.
      * exists s. rewrite in_app_iff. auto.
    + intros (s & Hs & Hd). rewrite in_app_iff in Hs.
      destruct Hs as [Hs|[<-|[]]]; eauto.
Qed.

(** A date that some stock does not report has fewer tickers than there
    are stocks. *)
Lemma partial_date_count (sd : StockDict F) date inner s :
  get_d (build_date_dict sd) date = Some inner ->
  In s (values sd) -> ~ In date (keys (ordered_date_dict s)) ->
  List.length (keys inner) < List.length (keys sd).
Proof.
  intros Hg Hs Hn.
  pose proof (build_date_dict_sound sd) as Hsound.
  destruct (Hsound _ _ Hg) as [Hwf Hk].
  apply Nat.le_lt_trans
    with (List.length (map (@ticker F) (filter (reports date) (values sd)))).
  - apply NoDup_incl_length; [exact Hwf|].
    intros tk Htk.
    apply in_keys_get with (eq_dec := string_dec) in Htk as [p Htk].
    destruct (Hk tk p Htk) as (s' & Hin & <- & Hd).
    apply in_map. apply filter_In. split; [assumption|].
    unfold reports. destruct (in_dec _ _ _) as [|Hno]; [reflexivity|].
    exfalso. apply Hno. unfold get_d in Hd. eapply get_Some_in_keys.
    exact Hd.
  - rewrite length_map. unfold keys, values.
    replace (List.length (map fst sd)) with (List.length (map snd sd))
      by (now rewrite !length_map).
    apply filter_length_lt with s; [assumption|].
    unfold reports. destruct (in_dec _ _ _); [contradiction|reflexivity].
Qed.

(** ** The second loop *)

Lemma drop_complete n (dd : DateDict F) date :
  complete n dd date -> drop_if_incomplete n date dd = dd.
Proof.
  intros H. unfold drop_if_incomplete.
  destruct (get_d dd date) as [inner|] eqn:E; [|reflexivity].
  specialize (H inner E).
  destruct (Nat.ltb_spec (List.length (keys inner)) n); [lia|reflexivity].
Qed.

Lemma drop_incomplete_len n (dd : DateDict F) date inner :
  get_d dd date = Some inner -> List.length (keys inner) < n ->
  len (drop_if_incomplete n date dd) <> len dd.
Proof.
  intros Hg Hlt. unfold drop_if_incomplete. rewrite Hg.
  destruct (Nat.ltb_spec (List.length (keys inner)) n); [|lia].
  pose proof (len_del Z.eq_dec dd date) as Hl.
  unfold get_d in Hg. apply get_Some_in_keys in Hg. specialize (Hl Hg).
  intros Heq. apply (Nat.neq_succ_diag_l (len (del_d dd date))).
  etransitivity; [exact Hl | symmetry; exact Heq].
Qed.

Lemma drop_same_or_resized n (dd : DateDict F) date :
  drop_if_incomplete n date dd = dd \/
  len (drop_if_incomplete n date dd) <> len dd.
Proof.
  destruct (get_d dd date) as [inner|] eqn:E.
  - destruct (Nat.ltb_spec (List.length (keys inner)) n) as [Hlt|Hge].
    + right. eapply drop_incomplete_len; eassumption.
    + left. apply drop_complete. intros i Hi. congruence.
  - left. unfold drop_if_incomplete. now rewrite E.
Qed.

Lemma remove_incomplete_raises n (dd : DateDict F) date inner :
  get_d dd date = Some inner -> List.length (keys inner) < n ->
  remove_incomplete n dd = Raise RuntimeError.
Proof.
  intros Hg Hlt. unfold remove_incomplete, for_keys.
  apply iter_keys_resizing with (k := date).
  - unfold get_d in Hg. eapply get_Some_in_keys. exact Hg.
  - intros k' _. apply drop_same_or_resized.
  - eapply drop_incomplete_len; eassumption.
Qed.

Lemma remove_incomplete_returns n (dd : DateDict F) :
  (forall date, complete n dd date) -> remove_incomplete n dd = Ok dd.
Proof.
  intros H. unfold remove_incomplete, for_keys.
  apply iter_keys_unchanged. intros k _. now apply drop_complete.
Qed.

Lemma remove_incomplete_Ok n (dd dd' : DateDict F) :
  remove_incomplete n dd = Ok dd' ->
  dd' = dd /\ forall date, complete n dd date.
Proof.
  intros H.
  assert (Hc : forall date, complete n dd date).
  { intros date inner Hg.
    destruct (Nat.le_gt_cases n (List.length (keys inner))) as [|Hlt];
      [assumption|].
    rewrite (@remove_incomplete_raises n dd date inner Hg Hlt) in H.
    discriminate. }
  split; [|assumption].
  rewrite (remove_incomplete_returns Hc) in H. congruence.
Qed.
End DateDictFacts.

(** ** [sorted] *)

Section SortedFacts.
Variable A : Type.
Variable leb : A -> A -> bool.
Hypothesis leb_total : forall a b, leb a b = true \/ leb b a = true.

Lemma insert_sorted_perm x l : Permutation (insert_sorted leb x l) (x :: l).
Proof.
  induction l as [|y l IH]; simpl; [reflexivity|].
  destruct (leb x y); [reflexivity|].
  rewrite IH. apply perm_swap.
Qed.

Lemma sorted_perm l : Permutation (sorted leb l) l.
Proof.
  induction l as [|x l IH]; simpl; [reflexivity|].
  rewrite insert_sorted_perm. now constructor.
Qed.

Lemma insert_sorted_hd x y l :
  (le_of leb) y x -> HdRel (le_of leb) y l -> HdRel (le_of leb) y (insert_sorted leb x l).
Proof.
  intros Hyx Hhd. destruct l as [|z l]; simpl.
  - now constructor.
  - destruct (leb x z); constructor; [assumption|].
    now inversion Hhd.
Qed.

Lemma insert_sorted_Sorted x l :
  Sorted (le_of leb) l -> Sorted (le_of leb) (insert_sorted leb x l).
Proof.
  induction l as [|y l IH]; intros Hs; simpl.
  - repeat constructor.
  - destruct (leb x y) eqn:E.
    + constructor; [assumption|]. now constructor.
    + inversion Hs as [|? ? Hs' Hhd]; subst.
      constructor; [now apply IH|].
      apply insert_sorted_hd; [|assumption].
      destruct (leb_total x y) as [H|H]; [congruence|exact H].
Qed.

Lemma sorted_Sorted l : Sorted (le_of leb) (sorted leb l).
Proof.
  induction l as [|x l IH]; simpl; [constructor|].
  now apply insert_sorted_Sorted.
Qed.
End SortedFacts.

Lemma sorted_keys_map (K V : Type) (lebK : K -> K -> bool) (d : dict K V) :
  keys (sorted (fun a b => lebK (fst a) (fst b)) d) = sorted lebK (keys d).
Proof.
  unfold keys.
  assert (H : forall x l,
            map fst (insert_sorted (fun a b : K * V => lebK (fst a) (fst b))
                                   x l) =
            insert_sorted lebK (fst x) (map fst l)).
  { intros x l. induction l as [|y l IH]; simpl; [reflexivity|].
    destruct (lebK (fst x) (fst y)); simpl; [reflexivity|].
    now rewrite IH. }
  induction d as [|x d IH]; simpl; [reflexivity|].
  now rewrite H, IH.
Qed.

Lemma Zleb_total (a b : Z) : (a <=? b)%Z = true \/ (b <=? a)%Z = true.
Proof. rewrite !Z.leb_le. lia. Qed.

(** ** The rows of the panel *)

Section PanelFacts.
Variable F : Type.

Lemma order_dates_keys (dd : DateDict F) :
  keys (order_dates dd) = sorted Z.leb (keys dd).
Proof.
  unfold order_dates, items, date_leb.
  apply (sorted_keys_map Z.leb dd).
Qed.

Lemma order_dates_perm (dd : DateDict F) : Permutation (order_dates dd) dd.
Proof. apply sorted_perm. Qed.

Lemma order_dates_wf (dd : DateDict F) : wf dd -> wf (order_dates dd).
Proof.
  unfold wf. rewrite order_dates_keys. intros H.
  eapply Permutation_NoDup; [|exact H].
  symmetry. apply sorted_perm.
Qed.

Lemma order_dates_get (dd : DateDict F) date :
  wf dd -> get_d (order_dates dd) date = get_d dd date.
Proof.
  intros Hwf. pose proof (order_dates_wf Hwf) as Hwf'.
  unfold get_d.
  destruct (@get Date _ Z.eq_dec dd date) as [inner|] eqn:E.
  - apply in_items_get; [exact Hwf'|].
    apply (Permutation_in _ (Permutation_sym (order_dates_perm dd))).
    now apply get_in_items with (eq_dec := Z.eq_dec).
  - apply get_None_iff. apply get_None_iff in E. intros Hin. apply E.
    rewrite order_dates_keys in Hin.
    apply (Permutation_in _ (sorted_perm Z.leb (keys dd))). exact Hin.
Qed.

Lemma panel_row_length tickers (ordered : DateDict F) date row :
  panel_row tickers ordered date = Ok row ->
  List.length row = List.length tickers.
Proof.
  unfold panel_row. destruct (get_d ordered date); [|discriminate].
  apply mapM_length.
Qed.

Lemma panel_rows_Ok tickers (sd : StockDict F) rows :
  panel_rows tickers sd = Ok rows ->
  remove_incomplete (List.length (keys sd)) (build_date_dict sd)
    = Ok (build_date_dict sd) /\
  List.length rows = len (build_date_dict sd) /\
  Forall (fun row => List.length row = List.length tickers) rows.
Proof.
  unfold panel_rows. intros H.
  destruct (remove_incomplete _ _) as [dd'|] eqn:E; simpl in H;
    [|discriminate].
  destruct (remove_incomplete_Ok _ _ E) as [-> Hc].
  split; [reflexivity|]. split.
  - rewrite (mapM_length _ _ H). rewrite order_dates_keys.
    rewrite (Permutation_length (sorted_perm Z.leb _)).
    unfold keys, len. apply length_map.
  - apply mapM_Ok in H. clear E Hc.
    induction H as [|date row ds rs Hrow _ IH]; constructor; auto.
    eapply panel_row_length. exact Hrow.
Qed.

Lemma record_price_wf (s : Stock F) dd date :
  wf dd -> wf (record_price s dd date).
Proof.
  intros Hwf. rewrite record_price_eq. unfold set_d.
  destruct (get_d dd date); destruct (get_d (ordered_date_dict s) date);
    auto using wf_set.
Qed.

Lemma build_date_dict_wf (sd : StockDict F) : wf (build_date_dict sd).
Proof.
  unfold build_date_dict.
  apply (fold_left_prefix_ind (@record_stock F) (fun dd _ => wf dd)).
  - constructor.
  - intros dd _ s Hwf. unfold record_stock.
    generalize (keys (ordered_date_dict s)) as ds. intros ds. revert dd Hwf.
    induction ds as [|d ds IH]; intros dd Hwf; simpl; [assumption|].
    apply IH. now apply record_price_wf.
Qed.

(** When the second loop deletes nothing the panel is as intended: its
    rows are the dates of the stocks, every one reported by every stock,
    in ascending order, and a row holds the prices of its date in the
    order of the tickers. *)
Lemma aligned_panel_rows tks (sd : StockDict F) rows :
  wf sd -> keyed_by_ticker sd ->
  panel_rows tks sd = Ok rows ->
  let dates := sorted Z.leb (keys (build_date_dict sd)) in
  Sorted (fun a b => (a <=? b)%Z = true) dates /\
  NoDup dates /\
  (forall date, In date dates <->
     (exists s, In s (values sd) /\ In date (keys (ordered_date_dict s))) /\
     (forall s, In s (values sd) -> In date (keys (ordered_date_dict s)))) /\
  Forall2 (fun date row =>
             Forall2 (fun tk p =>
                        exists s, get_s sd tk = Some s /\
                                  get_d (ordered_date_dict s) date = Some p)
                     tks row)
          dates rows.
Proof.
  intros Hwf Hkey H dates. unfold panel_rows in H.
  destruct (remove_incomplete _ _) as [dd'|] eqn:E; simpl in H;
    [|discriminate].
  destruct (remove_incomplete_Ok _ _ E) as [-> Hc]. clear E.
  pose proof (build_date_dict_wf sd) as Hdd.
  assert (Hin : forall date, In date dates <->
                             In date (keys (build_date_dict sd))).
  { intros date. unfold dates. split; intros Hd.
    - apply (Permutation_in _ (sorted_perm Z.leb _)). exact Hd.
    - apply (Permutation_in _ (Permutation_sym (sorted_perm Z.leb _))).
      exact Hd. }
  split; [apply (sorted_Sorted Z.leb Zleb_total)|].
  split.
  { apply (Permutation_NoDup (Permutation_sym (sorted_perm Z.leb _))).
    exact Hdd. }
  split.
  - intros date. rewrite Hin, build_date_dict_keys. split.
    + intros Hex. split; [exact Hex|]. intros s Hs.
      destruct (in_dec Z.eq_dec date (keys (ordered_date_dict s)))
        as [|Hno]; [assumption|exfalso].
      apply build_date_dict_keys in Hex.
      apply in_keys_get with (eq_dec := Z.eq_dec) in Hex as [inner Hg].
      pose proof (@partial_date_count F sd date inner s Hg Hs Hno) as Hlt.
      pose proof (Hc date inner Hg) as Hge. lia.
    + tauto.
  - apply mapM_Ok in H. rewrite order_dates_keys in H. fold dates in H.
    eapply Forall2_impl; [|exact H]. clear H.
    intros date row Hrow. unfold panel_row in Hrow.
    rewrite order_dates_get in Hrow by assumption.
    destruct (get_d (build_date_dict sd) date) as [inner|] eqn:Hg;
      [|discriminate].
    apply mapM_Ok in Hrow. eapply Forall2_impl; [|exact Hrow].
    intros tk p Hp. unfold lookup_price in Hp.
    destruct (get_s inner tk) as [q|] eqn:Hq; [|discriminate].
    injection Hp as ->.
    pose proof (build_date_dict_sound sd) as Hsound.
    destruct (Hsound _ _ Hg) as [_ Hk].
    destruct (Hk tk p Hq) as (s & Hs & Ht & Hd).
    exists s. split; [|exact Hd].
    unfold values in Hs. apply in_map_iff in Hs as ([k s'] & Heq & Hks).
    simpl in Heq. subst s'. rewrite <- Ht, (Hkey k s Hks).
    now apply in_items_get.
Qed.

Lemma panel_rows_partial tickers (sd : StockDict F) date s1 s2 :
  In s1 (values sd) -> In s2 (values sd) ->
  In date (keys (ordered_date_dict s1)) ->
  ~ In date (keys (ordered_date_dict s2)) ->
  panel_rows tickers sd = Raise RuntimeError.
Proof.
  intros H1 H2 Hd Hn. unfold panel_rows.
  assert (Hk : In date (keys (build_date_dict sd)))
    by (apply build_date_dict_keys; eauto).
  apply in_keys_get with (eq_dec := Z.eq_dec) in Hk as [inner Hg].
  rewrite (@remove_incomplete_raises F _ _ date inner Hg); [reflexivity|].
  eapply partial_date_count; eassumption.
Qed.
End PanelFacts.

(** ** Lists *)

Lemma zip_with_length (A B C : Type) (f : A -> B -> C) l l' :
  List.length (zip_with f l l') = Nat.min (List.length l) (List.length l').
Proof.
  revert l'. induction l as [|a l IH]; intros [|b l']; simpl; auto.
Qed.

Lemma zip_with_map (A B C D : Type) (f : A -> B -> C)
      (g : D -> A) (h : D -> B) l :
  zip_with f (map g l) (map h l) = map (fun x => f (g x) (h x)) l.
Proof. induction l as [|x l IH]; simpl; congruence. Qed.

Lemma zip_with_map_r (A B C : Type) (f : A -> B -> C) (h : A -> B) l :
  zip_with f l (map h l) = map (fun x => f x (h x)) l.
Proof. induction l as [|x l IH]; simpl; congruence. Qed.

Lemma zip_with_repeat (A B C : Type) (f : A -> B -> C) a b n :
  zip_with f (repeat a n) (repeat b n) = repeat (f a b) n.
Proof. induction n as [|n IH]; simpl; congruence. Qed.

Lemma nth_error_zip_with (A B C : Type) (f : A -> B -> C) l l' i a b :
  nth_error l i = Some a -> nth_error l' i = Some b ->
  nth_error (zip_with f l l') i = Some (f a b).
Proof.
  revert l l'. induction i as [|i IH]; intros [|x l] [|y l']; simpl;
    try discriminate.
  - congruence.
  - apply IH.
Qed.

Lemma nth_error_tl (A : Type) (l : list A) i :
  nth_error (tl l) i = nth_error l (S i).
Proof. destruct l; [now destruct i | reflexivity]. Qed.

Lemma nth_error_removelast (A : Type) (l : list A) i :
  S i < List.length l -> nth_error (removelast l) i = nth_error l i.
Proof.
  revert i. induction l as [|a l IH]; intros i Hi; simpl in Hi; [lia|].
  destruct l as [|b l]; [simpl in Hi; lia|].
  destruct i as [|i]; [reflexivity|].
  change (nth_error (removelast (b :: l)) i = nth_error (b :: l) i).
  apply IH. simpl in *. lia.
Qed.

Lemma removelast_length (A : Type) (l : list A) :
  List.length (removelast l) = pred (List.length l).
Proof.
  induction l as [|a l IH]; [reflexivity|].
  destruct l as [|b l]; [reflexivity|].
  change (S (List.length (removelast (b :: l))) = S (List.length l)).
  now rewrite IH.
Qed.

Lemma nth_error_map_seq (A : Type) (f : nat -> A) n i :
  i < n -> nth_error (map f (seq 0 n)) i = Some (f i).
Proof.
  intros Hi. rewrite nth_error_map, nth_error_seq.
  destruct (Nat.ltb_spec i n); [reflexivity|lia].
Qed.

Lemma map_const_seq (A : Type) (c : A) a n :
  map (fun _ => c) (seq a n) = repeat c n.
Proof. revert a. induction n as [|n IH]; intros a; simpl; congruence. Qed.

(** ** The statistics, entry by entry *)

Section NumpyFacts.
Context {F : Type} {num : Numeric F}.

Lemma cov_matrix_length ret n_obs n fact :
  List.length (cov_matrix ret n_obs n fact) = n.
Proof. unfold cov_matrix. now rewrite length_map, length_seq. Qed.

Lemma cov_matrix_entry ret n_obs n fact j k :
  j < n -> k < n ->
  entry (Arr2 n n (cov_matrix ret n_obs n fact)) j k
  = Some (cov_entry ret n_obs fact j k).
Proof.
  intros Hj Hk. unfold entry, cov_matrix.
  destruct (Nat.ltb_spec j n); [|lia].
  destruct (Nat.ltb_spec k n); [|lia]. simpl.
  rewrite nth_error_map_seq by assumption.
  now apply nth_error_map_seq.
Qed.

Lemma np_cov_Arr2 n_obs n ret ddof :
  n <> 0 ->
  np_cov (Arr2 n_obs n ret) false ddof
  = squeeze (Arr2 n n (cov_matrix ret n_obs n (fact_of n_obs ddof))).
Proof.
  intros Hn. unfold np_cov, design, transpose.
  destruct (map (column ret) (seq 0 n)) as [|x0 X0] eqn:EX.
  { destruct n; [contradiction|discriminate]. }
  rewrite <- EX. clear x0 X0 EX.
  rewrite zip_with_map_r, !map_map.
  fold (fact_of n_obs ddof).
  rewrite length_map, length_seq.
  unfold cov_matrix. do 2 f_equal. apply map_ext. intros j.
  rewrite !map_map. reflexivity.
Qed.

Lemma squeeze_square n (M : list (list F)) :
  2 <= n -> squeeze (Arr2 n n M) = Arr2 n n M.
Proof.
  intros Hn. destruct n as [|[|n]]; [lia|lia|]. reflexivity.
Qed.

Lemma squeeze_cov_one ret n_obs fact :
  squeeze (Arr2 1 1 (cov_matrix ret n_obs 1 fact))
  = Arr0 (cov_entry ret n_obs fact 0 0).
Proof. reflexivity. Qed.

Lemma price_change_Arr2 r c (rows : list (list F)) :
  price_change_array (Arr2 r c rows)
  = Arr2 (pred r) c (zip_with (zip_with fdiv) (tl rows) (removelast rows)).
Proof. reflexivity. Qed.

Lemma diag_cov_matrix ret n_obs n fact :
  diag (cov_matrix ret n_obs n fact)
  = map (fun i => cov_entry ret n_obs fact i i) (seq 0 n).
Proof.
  unfold diag. rewrite cov_matrix_length.
  apply map_ext_in. intros i Hi. apply in_seq in Hi.
  assert (Hlt : i < n) by lia.
  unfold cov_matrix.
  rewrite (nth_error_nth _ _ _
             (nth_error_map_seq
                (fun j => map (cov_entry ret n_obs fact j) (seq 0 n)) Hlt)).
  apply nth_error_nth. now apply nth_error_map_seq.
Qed.

Lemma np_corrcoef_Arr2 n_obs n ret ddof :
  2 <= n ->
  np_corrcoef (Arr2 n_obs n ret) false ddof
  = Arr2 n n (map (fun j => map (corr_entry ret n_obs j) (seq 0 n))
                  (seq 0 n)).
Proof.
  intros Hn. unfold np_corrcoef.
  rewrite np_cov_Arr2 by lia. rewrite squeeze_square by assumption.
  f_equal. rewrite diag_cov_matrix. unfold cov_matrix.
  rewrite !map_map.
  rewrite (zip_with_map
             (fun (row : list F) (s : F) => map (fun v => fdiv v s) row)).
  rewrite map_map. apply map_ext. intros j.
  rewrite map_map, (zip_with_map fdiv), map_map. reflexivity.
Qed.

Lemma corrcoef_entry n_obs n ret ddof j k :
  2 <= n -> j < n -> k < n ->
  entry (np_corrcoef (Arr2 n_obs n ret) false ddof) j k
  = Some (corr_entry ret n_obs j k).
Proof.
  intros Hn Hj Hk. rewrite np_corrcoef_Arr2 by assumption.
  unfold entry.
  destruct (Nat.ltb_spec j n); [|lia].
  destruct (Nat.ltb_spec k n); [|lia]. simpl.
  rewrite nth_error_map_seq by assumption.
  now apply nth_error_map_seq.
Qed.
End NumpyFacts.

(** ** The statistics over the real numbers *)

Section RealFacts.
Local Open Scope R_scope.

Lemma centered_R (ret : list (list R)) n_obs j :
  centered ret n_obs j
  = map (fun row => nth j row 0 - mean n_obs (column ret j)) ret.
Proof. unfold centered, column at 2. now rewrite map_map. Qed.

Lemma dot_centered_R (ret : list (list R)) n_obs j k :
  dot (centered ret n_obs j) (centered ret n_obs k)
  = fsum (map (fun row => (nth j row 0 - mean n_obs (column ret j)) *
                          (nth k row 0 - mean n_obs (column ret k))) ret).
Proof.
  unfold dot. rewrite !centered_R.
  now rewrite (zip_with_map Rmult).
Qed.

Lemma fact_of_R n_obs ddof :
  (ddof < Z.of_nat n_obs)%Z ->
  fact_of n_obs ddof = IZR (Z.of_nat n_obs - ddof).
Proof.
  intros H. unfold fact_of.
  destruct (Z.leb_spec (Z.of_nat n_obs - ddof) 0); [lia|reflexivity].
Qed.

Lemma cov_entry_population (ret : list (list R)) j k :
  (1 <= List.length ret)%nat ->
  cov_entry ret (List.length ret) (fact_of (List.length ret) 0) j k
  = population_cov ret j k.
Proof.
  intros HN. unfold cov_entry, population_cov.
  rewrite dot_centered_R, fact_of_R by lia.
  rewrite Z.sub_0_r. unfold mean at 3. simpl.
  unfold Rdiv. ring.
Qed.

Lemma dot_comm_R (xs ys : list R) : dot xs ys = dot ys xs.
Proof.
  unfold dot. f_equal. revert ys.
  induction xs as [|x xs IH]; intros [|y ys]; simpl; try reflexivity.
  now rewrite IH, Rmult_comm.
Qed.

Lemma cov_entry_sym (ret : list (list R)) n_obs fact j k :
  cov_entry ret n_obs fact j k = cov_entry ret n_obs fact k j.
Proof. unfold cov_entry. now rewrite dot_comm_R. Qed.

Lemma fold_plus_shift (l : list R) a :
  fold_left Rplus l a = a + fold_left Rplus l 0.
Proof.
  revert a. induction l as [|x l IH]; intros a; simpl; [ring|].
  rewrite (IH (a + x)), (IH (0 + x)). ring.
Qed.

Lemma fsum_nonneg (l : list R) : Forall (fun x => 0 <= x) l -> 0 <= fsum l.
Proof.
  unfold fsum. simpl. induction l as [|x l IH]; intros H; simpl; [lra|].
  inversion H as [|? ? Hx Hl]; subst.
  rewrite fold_plus_shift. specialize (IH Hl). lra.
Qed.

Lemma dot_self_nonneg (xs : list R) : 0 <= dot xs xs.
Proof.
  unfold dot. apply fsum_nonneg.
  induction xs as [|x xs IH]; simpl; constructor; [|assumption].
  simpl. nra.
Qed.

Lemma clip_bounds (v : R) : -1 <= clip v <= 1.
Proof.
  unfold clip. simpl. split.
  - apply Rmin_glb; [apply Rmax_r | lra].
  - apply Rmin_r.
Qed.

Lemma clip_one : clip 1 = 1.
Proof.
  unfold clip. simpl. rewrite Rmax_left by lra. apply Rmin_left. lra.
Qed.
Lemma cov_entry_pos (ret : list (list R)) j :
  (2 <= List.length ret)%nat ->
  population_cov ret j j <> 0 ->
  0 < cov_entry ret (List.length ret) (fact_of (List.length ret) 1) j j.
Proof.
  intros HN Hvar.
  rewrite <- cov_entry_population in Hvar by lia.
  unfold cov_entry in *. rewrite fact_of_R in * by lia.
  set (N := List.length ret) in *.
  pose proof (dot_self_nonneg (centered ret N j)) as Hd.
  set (S := dot (centered ret N j) (centered ret N j)) in *.
  simpl in *.
  assert (HS : S <> 0) by (intros E; apply Hvar; rewrite E; ring).
  assert (HN1 : 0 < IZR (Z.of_nat N - 1)) by (apply IZR_lt; lia).
  apply Rmult_lt_0_compat; [lra|].
  unfold Rdiv. rewrite Rmult_1_l. now apply Rinv_0_lt_compat.
Qed.

Lemma corr_entry_sym (ret : list (list R)) n_obs j k :
  corr_entry ret n_obs j k = corr_entry ret n_obs k j.
Proof.
  unfold corr_entry. cbv zeta. rewrite (cov_entry_sym ret n_obs _ j k).
  f_equal. simpl. unfold Rdiv. ring.
Qed.

Lemma corr_entry_diag (ret : list (list R)) j :
  (2 <= List.length ret)%nat ->
  population_cov ret j j <> 0 ->
  corr_entry ret (List.length ret) j j = 1.
Proof.
  intros HN Hvar. pose proof (@cov_entry_pos ret j HN Hvar) as Hpos.
  unfold corr_entry. cbv zeta.
  set (c := cov_entry ret (List.length ret)
                      (fact_of (List.length ret) 1) j j) in *.
  transitivity (clip 1); [|apply clip_one]. f_equal. simpl.
  pose proof (sqrt_lt_R0 c Hpos) as Hs.
  pose proof (sqrt_sqrt c (Rlt_le _ _ Hpos)) as Hss.
  rewrite <- Hss at 1. field. lra.
Qed.
End RealFacts.

(** ** Construction *)

Section InitFacts.
Context {F : Type} {num : Numeric F}.

Lemma filterStocks_values_enough MINIMUM_AMOUNT_DATA (sd : StockDict F) s :
  In s (values (_filterStocks MINIMUM_AMOUNT_DATA sd)) ->
  enough_data MINIMUM_AMOUNT_DATA s = true.
Proof.
  intros Hin. unfold values in Hin. apply in_map_iff in Hin.
  destruct Hin as ([tk s'] & Hs & Hin). simpl in Hs. subst s'.
  apply in_items_get with (eq_dec := string_dec) in Hin;
    [|apply filterStocks_wf].
  change (get_s (_filterStocks MINIMUM_AMOUNT_DATA sd) tk = Some s) in Hin.
  rewrite filterStocks_get in Hin.
  destruct (get_s sd tk) as [s0|]; [|discriminate].
  destruct (enough_data MINIMUM_AMOUNT_DATA s0) eqn:E; [|discriminate].
  congruence.
Qed.

Lemma canonical_tickers_in (sd : StockDict F) tk :
  In tk (canonical_tickers sd) <-> In tk (keys sd).
Proof.
  unfold canonical_tickers. split; intros H.
  - apply (Permutation_in _ (sorted_perm String.leb (keys sd))). exact H.
  - apply (Permutation_in _
             (Permutation_sym (sorted_perm String.leb (keys sd)))).
    exact H.
Qed.

Lemma canonical_tickers_length (sd : StockDict F) :
  List.length (canonical_tickers sd) = List.length (keys sd).
Proof. apply Permutation_length, sorted_perm. Qed.

Lemma init_Ok MINIMUM_AMOUNT_DATA (sd : StockDict F) db :
  __init__ MINIMUM_AMOUNT_DATA sd = Ok db ->
  let survivors := _filterStocks MINIMUM_AMOUNT_DATA sd in
  stock_dict db = survivors /\
  tickers db = canonical_tickers survivors /\
  _getFilteredPrices (tickers db) survivors = Ok (price_array db) /\
  covar_array db = _getCovarianceArray (price_array db) /\
  correl_array db = _getCorrelationArray (price_array db).
Proof.
  unfold __init__. intros H.
  destruct (_getFilteredPrices _ _) as [p|] eqn:E; simpl in H;
    [|discriminate].
  injection H as <-. simpl. auto.
Qed.

Lemma init_of_panel MINIMUM_AMOUNT_DATA (sd : StockDict F) p :
  let survivors := _filterStocks MINIMUM_AMOUNT_DATA sd in
  _getFilteredPrices (canonical_tickers survivors) survivors = Ok p ->
  __init__ MINIMUM_AMOUNT_DATA sd
  = Ok (mkStockDatabase survivors (canonical_tickers survivors) p
          (_getCovarianceArray p) (_getCorrelationArray p)).
Proof. intros survivors H. unfold __init__. fold survivors. now rewrite H. Qed.

(** The panel has a row as soon as an asset with an observation is left. *)
Lemma panel_has_row tks (sd : StockDict F) s rows :
  In s (values sd) -> 1 <= len (ordered_date_dict s) ->
  panel_rows tks sd = Ok rows -> 1 <= List.length rows.
Proof.
  intros Hs Hlen H. apply panel_rows_Ok in H as (_ & -> & _).
  destruct (ordered_date_dict s) as [|[date price] odd] eqn:E;
    [simpl in Hlen; lia|].
  assert (Hk : In date (keys (build_date_dict sd))).
  { apply build_date_dict_keys. exists s. split; [assumption|].
    rewrite E. simpl. now left. }
  unfold len. unfold keys in Hk.
  destruct (build_date_dict sd); [destruct Hk | simpl; lia].
Qed.

Lemma getFilteredPrices_shape tks (sd : StockDict F) p :
  _getFilteredPrices tks sd = Ok p ->
  p = Arr1 [] \/
  exists r rows, 1 <= r /\ r = List.length rows /\
                 p = Arr2 r (List.length tks) rows.
Proof.
  unfold _getFilteredPrices. intros H.
  destruct (panel_rows tks sd) as [rows|] eqn:E; simpl in H; [|discriminate].
  injection H as <-. apply panel_rows_Ok in E as (_ & _ & Hrect).
  destruct rows as [|r0 rows]; [now left|]. right.
  exists (List.length (r0 :: rows)), (r0 :: rows).
  split; [simpl; lia|]. split; [reflexivity|].
  unfold np_array. f_equal. now inversion Hrect.
Qed.
End InitFacts.

(** ** Degenerate panels in binary64 *)

Lemma Forall_matrix (A : Type) (P : A -> Prop) (f : nat -> nat -> A) n m :
  (forall j k, P (f j k)) ->
  Forall (Forall P) (map (fun j => map (f j) (seq 0 m)) (seq 0 n)).
Proof.
  intros H. apply Forall_forall. intros row Hrow.
  apply in_map_iff in Hrow as (j & <- & _).
  apply Forall_forall. intros x Hx.
  apply in_map_iff in Hx as (k & <- & _). apply H.
Qed.

Lemma cov_no_returns n ddof :
  ddof = 0%Z \/ ddof = 1%Z ->
  all_entries NaN (np_cov (Arr2 0 n (@nil (list float))) false ddof).
Proof.
  intros Hd. destruct n as [|[|n]].
  - simpl. constructor.
  - destruct Hd as [->| ->]; reflexivity.
  - rewrite np_cov_Arr2 by lia. rewrite squeeze_square by lia.
    cbn [all_entries]. apply (Forall_matrix NaN). intros j k.
    destruct Hd as [->| ->]; reflexivity.
Qed.

Lemma corrcoef_no_returns n ddof :
  all_entries NaN (np_corrcoef (Arr2 0 n (@nil (list float))) false ddof).
Proof.
  destruct n as [|[|n]].
  - simpl. constructor.
  - reflexivity.
  - rewrite np_corrcoef_Arr2 by lia.
    cbn [all_entries]. apply (Forall_matrix NaN). intros j k. reflexivity.
Qed.

Lemma price_change_one_row c (row : list float) :
  price_change_array (Arr2 1 c [row]) = Arr2 0 c [].
Proof. reflexivity. Qed.

(** ** The embedding at work *)

(** With a threshold of 4 the third asset is dropped; the two others share
    their five dates, and the panel has five rows in the order of the
    dates and two columns in the order of the tickers. *)
Example three_assets_database :
  exists db,
    __init__ 4 three_assets = Ok db /\
    tickers db = ["A"%string; "B"%string] /\
    price_array db
    = Arr2 5 2 [[1; 10]; [2; 20]; [3; 40]; [5; 20]; [4; 30]]%float /\
    price_change_array (price_array db)
    = Arr2 4 2 [[2; 2]; [1.5; 2]; [5 / 3; 0.5]; [4 / 5; 1.5]]%float /\
    shape (covar_array db) = [2; 2] /\
    shape (correl_array db) = [2; 2].
Proof.
  eexists. split; [vm_compute; reflexivity|].
  repeat split; vm_compute; reflexivity.
Qed.

(** With a threshold of 3 the third asset stays, dates 2 and 4 have two
    tickers out of three, and the second loop raises. *)
Example three_assets_partial : __init__ 3 three_assets = Raise RuntimeError.
Proof. reflexivity. Qed.

(** * The claims *)

(** C8.  The filter stage returns exactly the assets whose number of
    observations is at least [MINIMUM_AMOUNT_DATA]: a ticker is bound to a
    stock in the result if and only if it is bound to that stock in the
    input and the stock meets the threshold.  A stock with exactly
    [MINIMUM_AMOUNT_DATA] observations is kept, one with
    [MINIMUM_AMOUNT_DATA - 1] is dropped.  [_filterStocks] is a total
    function: nothing is raised for a dropped asset. *)
Theorem filterStocks_threshold (F : Type) (MINIMUM_AMOUNT_DATA : Z)
        (sd : StockDict F) (tk : Ticker) :
  (forall s,
      get_s (_filterStocks MINIMUM_AMOUNT_DATA sd) tk = Some s <->
      get_s sd tk = Some s /\
      (MINIMUM_AMOUNT_DATA <= Z.of_nat (len (ordered_date_dict s)))%Z) /\
  (forall s,
      get_s sd tk = Some s ->
      Z.of_nat (len (ordered_date_dict s)) = MINIMUM_AMOUNT_DATA ->
      get_s (_filterStocks MINIMUM_AMOUNT_DATA sd) tk = Some s) /\
  (forall s,
      get_s sd tk = Some s ->
      Z.of_nat (len (ordered_date_dict s)) = (MINIMUM_AMOUNT_DATA - 1)%Z ->
      get_s (_filterStocks MINIMUM_AMOUNT_DATA sd) tk = None) /\
  wf (_filterStocks MINIMUM_AMOUNT_DATA sd).
Proof.
  rewrite filterStocks_get. unfold enough_data.
  repeat split.
  - destruct (get_s sd tk) as [s0|]; [|discriminate].
    destruct (Z.leb_spec MINIMUM_AMOUNT_DATA
                (Z.of_nat (len (ordered_date_dict s0)))); congruence.
  - destruct (get_s sd tk) as [s0|]; [|discriminate].
    destruct (Z.leb_spec MINIMUM_AMOUNT_DATA
                (Z.of_nat (len (ordered_date_dict s0))));
      [congruence|discriminate].
  - intros [-> Hle]. apply Z.leb_le in Hle. now rewrite Hle.
  - intros s -> Heq.
    destruct (Z.leb_spec MINIMUM_AMOUNT_DATA
                (Z.of_nat (len (ordered_date_dict s)))); [reflexivity|lia].
  - intros s -> Heq.
    destruct (Z.leb_spec MINIMUM_AMOUNT_DATA
                (Z.of_nat (len (ordered_date_dict s)))); [lia|reflexivity].
  - apply filterStocks_wf.
Qed.

(** C10.  The loop that removes the dates with missing tickers iterates
    over [date_dict.keys()] and deletes from [date_dict]: for every input
    mapping in which some date is reported by one asset and not by another,
    the loop does not complete, it raises [RuntimeError]. *)
Theorem remove_incomplete_partial_date (F : Type) (sd : StockDict F)
        (date : Date) (s1 s2 : Stock F) :
  In s1 (values sd) -> In s2 (values sd) ->
  In date (keys (ordered_date_dict s1)) ->
  ~ In date (keys (ordered_date_dict s2)) ->
  remove_incomplete (List.length (keys sd)) (build_date_dict sd)
  = Raise RuntimeError.
Proof.
  intros H1 H2 Hd Hn.
  assert (Hk : In date (keys (build_date_dict sd)))
    by (apply build_date_dict_keys; eauto).
  apply in_keys_get with (eq_dec := Z.eq_dec) in Hk as [inner Hg].
  apply (@remove_incomplete_raises F _ _ date inner Hg).
  eapply partial_date_count; eassumption.
Qed.

Lemma remove_incomplete_partial_date_witness :
  remove_incomplete 2 (build_date_dict two_assets_partial)
  = Raise RuntimeError.
Proof.
  apply (@remove_incomplete_partial_date float two_assets_partial 2%Z
           (mkStock "A"%string [(1%Z, 10%float); (2%Z, 11%float)])
           (mkStock "B"%string [(1%Z, 20%float)])).
  - simpl. auto.
  - simpl. auto.
  - simpl. auto.
  - simpl. intros [H|[]]. discriminate H.
Defined.

(** C1.  [_getFilteredPrices] returns no panel for an input mapping in
    which some date is reported by one asset and not by another: the
    [RuntimeError] of its second loop leaves the method, so that the dates
    with full coverage do not appear as rows of any array. *)
Theorem getFilteredPrices_partial_date (F : Type) (num : Numeric F)
        (tks : list Ticker) (sd : StockDict F)
        (date : Date) (s1 s2 : Stock F) :
  In s1 (values sd) -> In s2 (values sd) ->
  In date (keys (ordered_date_dict s1)) ->
  ~ In date (keys (ordered_date_dict s2)) ->
  _getFilteredPrices tks sd = Raise RuntimeError.
Proof.
  intros H1 H2 Hd Hn. unfold _getFilteredPrices.
  now rewrite (panel_rows_partial tks sd date s1 s2).
Qed.

Lemma getFilteredPrices_partial_date_witness :
  _getFilteredPrices ["A"%string; "B"%string] two_assets_partial
  = Raise RuntimeError.
Proof.
  apply (@getFilteredPrices_partial_date float Numeric_float
           ["A"%string; "B"%string] two_assets_partial 2%Z
           (mkStock "A"%string [(1%Z, 10%float); (2%Z, 11%float)])
           (mkStock "B"%string [(1%Z, 20%float)])).
  - simpl. auto.
  - simpl. auto.
  - simpl. auto.
  - simpl. intros [H|[]]. discriminate H.
Defined.

(** C2.  For a panel of R rows, R at least 2, the array of price changes
    has R - 1 rows, and its entry [i, j] is the price of row i + 1 divided
    by the price of row i, in column j: a plain ratio. *)
Theorem price_change_ratio (F : Type) (num : Numeric F)
        (rows : list (list F)) (c : nat) (d : F) :
  Forall (fun row => List.length row = c) rows ->
  2 <= List.length rows ->
  shape (price_change_array (np_array rows)) = [List.length rows - 1; c] /\
  forall i j, S i < List.length rows -> j < c ->
    entry (price_change_array (np_array rows)) i j
    = Some (fdiv (nth j (nth (S i) rows []) d) (nth j (nth i rows []) d)).
Proof.
  intros Hrect HR.
  destruct rows as [|r0 rows']; [simpl in HR; lia|].
  assert (Hc : List.length r0 = c) by (now inversion Hrect).
  unfold np_array. rewrite Hc, price_change_Arr2.
  set (rows := r0 :: rows') in *.
  split; [simpl; f_equal; lia|].
  intros i j Hi Hj. unfold entry.
  destruct (Nat.ltb_spec i (pred (List.length rows))); [|lia].
  destruct (Nat.ltb_spec j c); [|lia]. simpl andb. cbv iota.
  assert (Hlen : forall m, m < List.length rows ->
                           List.length (nth m rows []) = c).
  { intros m Hm. rewrite Forall_forall in Hrect. apply Hrect.
    now apply nth_In. }
  rewrite (@nth_error_zip_with _ _ _ (zip_with fdiv) (tl rows)
             (removelast rows) i (nth (S i) rows []) (nth i rows [])).
  - apply nth_error_zip_with; apply nth_error_nth'; rewrite Hlen; lia.
  - rewrite nth_error_tl. now apply nth_error_nth'.
  - rewrite nth_error_removelast by assumption. apply nth_error_nth'. lia.
Qed.

Lemma price_change_ratio_witness :
  shape (price_change_array
           (np_array [[1; 1]; [2; 3]; [4; 6]]%float)) = [2; 2] /\
  entry (price_change_array
           (np_array [[1; 1]; [2; 3]; [4; 6]]%float)) 1 1
  = Some (6 / 3)%float.
Proof.
  destruct (@price_change_ratio float Numeric_float
              [[1; 1]; [2; 3]; [4; 6]]%float 2 0%float) as [Hs He].
  - repeat constructor.
  - simpl. lia.
  - split; [exact Hs|]. apply (He 1 1); simpl; lia.
Defined.

(** C3.  For a return matrix of N rows, N at least 1, the array computed
    by [_getCovarianceArray] is the population covariance of its columns,
    normalised by N: entry [j, k] is the mean over the rows of
    [(ret[:,j] - mean(ret[:,j])) * (ret[:,k] - mean(ret[:,k]))].  Numbers
    are real numbers here: the identity holds up to rounding in binary64.
    For a single column numpy hands the one entry back as a 0-d array. *)
Theorem covariance_is_population (price_array : ndarray R)
        (ret : list (list R)) (n : nat) :
  price_change_array price_array = Arr2 (List.length ret) n ret ->
  1 <= List.length ret ->
  (n = 1 ->
   _getCovarianceArray price_array = Arr0 (population_cov ret 0 0)) /\
  (2 <= n -> forall j k, j < n -> k < n ->
   entry (_getCovarianceArray price_array) j k
   = Some (population_cov ret j k)).
Proof.
  intros Hret HN. unfold _getCovarianceArray. rewrite Hret. split.
  - intros ->. rewrite np_cov_Arr2 by lia.
    rewrite squeeze_cov_one. f_equal. now apply cov_entry_population.
  - intros Hn j k Hj Hk. rewrite np_cov_Arr2 by lia.
    rewrite squeeze_square by assumption.
    rewrite cov_matrix_entry by assumption.
    f_equal. now apply cov_entry_population.
Qed.

Lemma covariance_is_population_witness :
  entry (_getCovarianceArray (Arr2 3 2 [[1; 1]; [2; 3]; [4; 6]]%R)) 0 1
  = Some (population_cov [[2 / 1; 3 / 1]; [4 / 2; 6 / 3]]%R 0 1).
Proof.
  apply (@covariance_is_population
           (Arr2 3 2 [[1; 1]; [2; 3]; [4; 6]]%R)
           [[2 / 1; 3 / 1]; [4 / 2; 6 / 3]]%R 2).
  - reflexivity.
  - simpl. lia.
  - lia.
  - lia.
  - lia.
Defined.

(** C9, as the code has it.  Over the real numbers, for a panel without a
    zero price whose returns have at least two rows and two columns and no
    column of zero variance: the covariance and the correlation arrays are
    symmetric, every correlation lies in [-1, 1], and the diagonal of the
    correlation is 1. *)
Theorem statistics_symmetric (price_array : ndarray R)
        (ret : list (list R)) (n : nat) :
  all_entries (fun p => p <> 0%R) price_array ->
  price_change_array price_array = Arr2 (List.length ret) n ret ->
  2 <= List.length ret -> 2 <= n ->
  (forall j, j < n -> population_cov ret j j <> 0%R) ->
  forall j k, j < n -> k < n ->
    entry (_getCovarianceArray price_array) j k
    = entry (_getCovarianceArray price_array) k j /\
    entry (_getCorrelationArray price_array) j k
    = entry (_getCorrelationArray price_array) k j /\
    (exists r, entry (_getCorrelationArray price_array) j k = Some r /\
               (-1 <= r <= 1)%R) /\
    entry (_getCorrelationArray price_array) j j = Some 1%R.
Proof.
  intros _ Hret HN Hn Hvar j k Hj Hk.
  unfold _getCovarianceArray, _getCorrelationArray. rewrite Hret.
  rewrite np_cov_Arr2 by lia. rewrite squeeze_square by assumption.
  rewrite !cov_matrix_entry, !corrcoef_entry by assumption.
  repeat split.
  - f_equal. apply cov_entry_sym.
  - f_equal. apply corr_entry_sym.
  - eexists. split; [reflexivity|]. apply clip_bounds.
  - f_equal. apply corr_entry_diag; auto.
Qed.

Lemma statistics_symmetric_witness :
  let p := Arr2 3 2 [[1; 1]; [2; 3]; [2; 6]]%R in
  entry (_getCovarianceArray p) 0 1 = entry (_getCovarianceArray p) 1 0 /\
  entry (_getCorrelationArray p) 0 1 = entry (_getCorrelationArray p) 1 0 /\
  (exists r, entry (_getCorrelationArray p) 0 1 = Some r /\
             (-1 <= r <= 1)%R) /\
  entry (_getCorrelationArray p) 0 0 = Some 1%R.
Proof.
  apply (@statistics_symmetric
           (Arr2 3 2 [[1; 1]; [2; 3]; [2; 6]]%R)
           [[2 / 1; 3 / 1]; [2 / 2; 6 / 3]]%R 2).
  - simpl. repeat constructor; lra.
  - reflexivity.
  - simpl. lia.
  - lia.
  - intros j Hj.
    assert (E : population_cov [[2 / 1; 3 / 1]; [2 / 2; 6 / 3]]%R j j
                = (1 / 4)%R).
    { destruct j as [|[|j]]; [| |lia];
        unfold population_cov, mean, fsum, column; simpl; field. }
    rewrite E. lra.
  - lia.
  - lia.
Defined.

(** C9, the claim as stated fails: an asset whose price doubles every day
    has constant returns, the variance is 0, and its diagonal correlation
    is 0 / 0, a NaN, which is neither in [-1, 1] nor close to 1. *)
Lemma correlation_diagonal_nan :
  exists db v,
    __init__ 1 two_assets_full = Ok db /\
    entry (correl_array db) 0 0 = Some v /\
    is_nan v = true /\
    (PrimFloat.leb (-1) v && PrimFloat.leb v 1)%bool = false.
Proof.
  eexists. eexists. split; [vm_compute; reflexivity|].
  split; [vm_compute; reflexivity|]. split; reflexivity.
Qed.

(** C4, as the code has it.  For every input mapping the canonical ticker
    order is the sorted sequence, without repetition, of the tickers that
    meet the minimum history.  When construction completes, with a
    threshold of at least 1 and at least two surviving assets, the length
    of that order is the number of columns of the panel and the size of
    both axes of the covariance and of the correlation arrays. *)
Theorem canonical_order_and_shapes (F : Type) (num : Numeric F)
        (MINIMUM_AMOUNT_DATA : Z) (sd : StockDict F) :
  let survivors := _filterStocks MINIMUM_AMOUNT_DATA sd in
  let order := canonical_tickers survivors in
  (Sorted (fun a b => String.leb a b = true) order /\
   NoDup order /\
   forall tk, In tk order <->
     exists s, get_s sd tk = Some s /\
       (MINIMUM_AMOUNT_DATA <= Z.of_nat (len (ordered_date_dict s)))%Z) /\
  forall db, __init__ MINIMUM_AMOUNT_DATA sd = Ok db ->
    tickers db = order /\
    ((1 <= MINIMUM_AMOUNT_DATA)%Z -> 2 <= List.length order ->
     (exists r, 1 <= r /\
                shape (price_array db) = [r; List.length order]) /\
     shape (covar_array db) = [List.length order; List.length order] /\
     shape (correl_array db) = [List.length order; List.length order]).
Proof.
  intros survivors order. split.
  - split; [|split].
    + apply (sorted_Sorted String.leb String.leb_total).
    + apply (Permutation_NoDup
               (Permutation_sym (sorted_perm String.leb (keys survivors)))).
      apply filterStocks_wf.
    + intros tk. unfold order. rewrite canonical_tickers_in. split.
      * intros Hin. apply in_keys_get with (eq_dec := string_dec) in Hin.
        destruct Hin as [s Hs].
        change (get_s survivors tk = Some s) in Hs.
        unfold survivors in Hs. rewrite filterStocks_get in Hs.
        destruct (get_s sd tk) as [s0|]; [|discriminate].
        unfold enough_data in Hs.
        destruct (Z.leb_spec MINIMUM_AMOUNT_DATA
                    (Z.of_nat (len (ordered_date_dict s0))));
          [|discriminate].
        exists s0. auto.
      * intros (s & Hs & Hle).
        apply get_Some_in_keys with (eq_dec := string_dec) (v := s).
        change (get_s survivors tk = Some s).
        unfold survivors. rewrite filterStocks_get, Hs. unfold enough_data.
        apply Z.leb_le in Hle. now rewrite Hle.
  - intros db Hdb. apply init_Ok in Hdb.
    destruct Hdb as (_ & Htk & Hp & Hcov & Hcor). fold survivors in Htk, Hp.
    fold order in Htk. split; [exact Htk|].
    intros Hmin Hn. rewrite Htk in Hp.
    assert (Hshape : exists r rows, 1 <= r /\
                       price_array db = Arr2 r (List.length order) rows).
    { destruct (getFilteredPrices_shape _ _ Hp)
        as [Hnil|(r & rows & Hr & _ & Hrows)]; [|eauto].
      exfalso. unfold _getFilteredPrices in Hp.
      destruct (panel_rows order survivors) as [rows|] eqn:E;
        simpl in Hp; [|discriminate].
      injection Hp as Hp. rewrite Hnil in Hp.
      destruct rows as [|r0 rows]; [|discriminate].
      unfold order in Hn. rewrite canonical_tickers_length in Hn.
      destruct survivors as [|[tk s] rest] eqn:Es; [simpl in Hn; lia|].
      assert (Hs : In s (values survivors))
        by (rewrite Es; simpl; now left).
      pose proof (filterStocks_values_enough _ _ _ Hs) as He.
      unfold enough_data in He. apply Z.leb_le in He.
      rewrite <- Es in E.
      assert (Hrow : 1 <= List.length (@nil (list F))).
      { apply (panel_has_row order survivors s); [exact Hs|lia|exact E]. }
      simpl in Hrow. lia. }
    destruct Hshape as (r & rows & Hr & Hpa).
    rewrite Hcov, Hcor, Hpa.
    unfold _getCovarianceArray, _getCorrelationArray.
    rewrite price_change_Arr2, np_cov_Arr2, np_corrcoef_Arr2 by lia.
    rewrite squeeze_square by lia. simpl. eauto.
Qed.

Lemma canonical_order_and_shapes_witness :
  exists db,
    __init__ 1 two_assets_full = Ok db /\
    tickers db = ["A"%string; "B"%string] /\
    shape (price_array db) = [3; 2] /\
    shape (covar_array db) = [2; 2] /\
    shape (correl_array db) = [2; 2].
Proof.
  destruct (@canonical_order_and_shapes float Numeric_float 1
              two_assets_full) as [_ H].
  destruct (__init__ 1 two_assets_full) as [db|e] eqn:E;
    [|vm_compute in E; discriminate E].
  exists db. destruct (H db eq_refl) as [Htk Hsh].
  assert (Hord : canonical_tickers (_filterStocks 1 two_assets_full)
                 = ["A"%string; "B"%string]) by reflexivity.
  rewrite Hord in Htk, Hsh.
  destruct Hsh as ((r & Hr & Hp) & Hcov & Hcor); [lia|simpl; lia|].
  split; [reflexivity|]. split; [exact Htk|].
  split; [|split; assumption].
  vm_compute in E. injection E as <-. reflexivity.
Defined.

(** C4, the claim as stated fails: with one surviving asset [np.cov]
    returns a 0-d array, which has no axis of length 1. *)
Lemma single_asset_statistics_0d :
  exists db,
    __init__ 1 one_asset = Ok db /\
    List.length (tickers db) = 1 /\
    shape (covar_array db) = [] /\
    shape (correl_array db) = [] /\
    shape (covar_array db)
    <> [List.length (tickers db); List.length (tickers db)].
Proof.
  eexists. split; [vm_compute; reflexivity|].
  repeat split. discriminate.
Qed.

(** C5, as the code has it.  For every input where filtering leaves at
    least one asset and the aligned panel has fewer than 2 rows,
    construction completes: no exception is raised, and every entry of the
    covariance and of the correlation it returns is a NaN. *)
Theorem short_panel_gives_nan (MINIMUM_AMOUNT_DATA : Z)
        (sd : StockDict float) (p : ndarray float) :
  let survivors := _filterStocks MINIMUM_AMOUNT_DATA sd in
  survivors <> [] ->
  _getFilteredPrices (canonical_tickers survivors) survivors = Ok p ->
  nrows p < 2 ->
  exists db,
    __init__ MINIMUM_AMOUNT_DATA sd = Ok db /\
    price_array db = p /\
    all_entries NaN (covar_array db) /\
    all_entries NaN (correl_array db).
Proof.
  intros survivors _ Hp Hrows.
  eexists. split; [apply init_of_panel; exact Hp|].
  cbn [price_array covar_array correl_array].
  split; [reflexivity|].
  destruct (getFilteredPrices_shape _ _ Hp)
    as [->|(r & rows & Hr & Hlen & ->)].
  - split; reflexivity.
  - simpl in Hrows. subst r.
    destruct rows as [|row [|row' rows]]; simpl in Hr, Hrows; try lia.
    change (List.length [row]) with 1.
    unfold _getCovarianceArray, _getCorrelationArray.
    rewrite price_change_one_row. split.
    + apply cov_no_returns. now left.
    + apply corrcoef_no_returns.
Qed.

Lemma short_panel_gives_nan_witness :
  exists db,
    __init__ 1 one_observation = Ok db /\
    price_array db = Arr2 1 1 [[5%float]] /\
    all_entries NaN (covar_array db) /\
    all_entries NaN (correl_array db).
Proof.
  apply (@short_panel_gives_nan 1 one_observation (Arr2 1 1 [[5%float]])).
  - discriminate.
  - reflexivity.
  - simpl. lia.
Defined.

(** C5, the claim as stated fails: one asset with one observation passes
    a threshold of 1, the panel has one row, and construction returns a
    database whose statistics are NaN. *)
Lemma one_observation_completes :
  _filterStocks 1 one_observation <> [] /\
  __init__ 1 one_observation
  = Ok (mkStockDatabase one_observation ["A"%string]
          (Arr2 1 1 [[5%float]]) (Arr0 nan) (Arr0 nan)).
Proof. split; [discriminate | reflexivity]. Qed.

(** C6, as the code has it.  For every input mapping for which the filter
    leaves no asset, construction completes: it returns a database with no
    ticker, a panel of shape (0,), and a 0-d NaN as covariance and as
    correlation. *)
Theorem empty_universe_completes (MINIMUM_AMOUNT_DATA : Z)
        (sd : StockDict float) :
  _filterStocks MINIMUM_AMOUNT_DATA sd = [] ->
  __init__ MINIMUM_AMOUNT_DATA sd
  = Ok (mkStockDatabase [] [] (Arr1 []) (Arr0 nan) (Arr0 nan)).
Proof. intros H. unfold __init__. rewrite H. reflexivity. Qed.

Lemma empty_universe_completes_witness :
  __init__ 2 one_observation
  = Ok (mkStockDatabase [] [] (Arr1 []) (Arr0 nan) (Arr0 nan)).
Proof.
  apply (@empty_universe_completes 2 one_observation). reflexivity.
Defined.

(** C6, the claim as stated fails: for the empty mapping the filter leaves
    no asset, and construction returns a database. *)
Lemma empty_mapping_completes :
  _filterStocks 1 (@nil (Ticker * Stock float)) = [] /\
  exists db, __init__ 1 (@nil (Ticker * Stock float)) = Ok db.
Proof. split; [reflexivity | eexists; reflexivity]. Qed.

(** C7, as the code has it.  For every input whose covariance or
    correlation holds a NaN or an infinite entry, construction completes
    and returns these very arrays, with the entry in them: no failure is
    raised for it. *)
Theorem non_finite_is_returned (MINIMUM_AMOUNT_DATA : Z)
        (sd : StockDict float) (p : ndarray float) :
  let survivors := _filterStocks MINIMUM_AMOUNT_DATA sd in
  _getFilteredPrices (canonical_tickers survivors) survivors = Ok p ->
  some_entry non_finite (_getCovarianceArray p) \/
  some_entry non_finite (_getCorrelationArray p) ->
  exists db,
    __init__ MINIMUM_AMOUNT_DATA sd = Ok db /\
    covar_array db = _getCovarianceArray p /\
    correl_array db = _getCorrelationArray p /\
    (some_entry non_finite (covar_array db) \/
     some_entry non_finite (correl_array db)).
Proof.
  intros survivors Hp Hnf.
  eexists. split; [apply init_of_panel; exact Hp|].
  cbn [covar_array correl_array]. auto.
Qed.

Lemma non_finite_is_returned_witness :
  exists db,
    __init__ 1 zero_price = Ok db /\
    covar_array db
    = _getCovarianceArray (Arr2 3 2 [[1; 1]; [0; 2]; [1; 3]]%float) /\
    correl_array db
    = _getCorrelationArray (Arr2 3 2 [[1; 1]; [0; 2]; [1; 3]]%float) /\
    (some_entry non_finite (covar_array db) \/
     some_entry non_finite (correl_array db)).
Proof.
  apply (@non_finite_is_returned 1 zero_price
           (Arr2 3 2 [[1; 1]; [0; 2]; [1; 3]]%float)).
  - reflexivity.
  - left. vm_compute. constructor. constructor. reflexivity.
Defined.

(** C7, the claim as stated fails: a price of zero gives an infinite
    return, the covariance of that asset is a NaN, and construction
    returns the database all the same. *)
Lemma zero_price_not_flagged :
  exists db v,
    __init__ 1 zero_price = Ok db /\
    entry (price_array db) 1 0 = Some 0%float /\
    entry (covar_array db) 0 0 = Some v /\
    is_nan v = true.
Proof.
  eexists. eexists. split; [vm_compute; reflexivity|].
  split; [reflexivity|]. split; reflexivity.
Qed.

(** * Further properties of the code *)

(** ** The filter stage as a filter *)

Lemma set_absent (K V : Type) (eq_dec : forall x y : K, {x = y} + {x <> y})
      (d : dict K V) k v :
  ~ In k (keys d) -> set eq_dec d k v = d ++ [(k, v)].
Proof.
  induction d as [|[k' v'] d IH]; simpl; [reflexivity|].
  intros Hn. destruct (eq_dec k k') as [->|Hne]; [tauto|].
  f_equal. apply IH. tauto.
Qed.

Lemma keys_app (K V : Type) (d d' : dict K V) :
  keys (d ++ d') = keys d ++ keys d'.
Proof. unfold keys. apply map_app. Qed.

Lemma filter_fold_app (F : Type) (MINIMUM_AMOUNT_DATA : Z)
      (sd l acc : StockDict F) :
  NoDup (keys acc ++ keys l) ->
  (forall k s, In (k, s) l -> get_s sd k = Some s) ->
  fold_left (filter_step MINIMUM_AMOUNT_DATA sd) (keys l) acc
  = acc ++ filter (fun kv => enough_data MINIMUM_AMOUNT_DATA (snd kv)) l.
Proof.
  revert acc. induction l as [|[k s] l IH]; intros acc Hnd Hget; simpl.
  - now rewrite app_nil_r.
  - assert (Hk : ~ In k (keys acc)).
    { intros Hin. apply NoDup_remove_2 in Hnd. apply Hnd.
      apply in_or_app. now left. }
    unfold filter_step at 2. rewrite (Hget k s) by (now left).
    fold (enough_data MINIMUM_AMOUNT_DATA s).
    destruct (enough_data MINIMUM_AMOUNT_DATA s).
    + unfold set_s. rewrite set_absent by assumption.
      rewrite IH.
      * now rewrite <- app_assoc.
      * rewrite keys_app, <- app_assoc. exact Hnd.
      * intros k' s' Hin. apply Hget. now right.
    + apply IH.
      * apply NoDup_remove_1 in Hnd. exact Hnd.
      * intros k' s' Hin. apply Hget. now right.
Qed.

Lemma filterStocks_filter (F : Type) (MINIMUM_AMOUNT_DATA : Z)
      (sd : StockDict F) :
  wf sd ->
  _filterStocks MINIMUM_AMOUNT_DATA sd
  = filter (fun kv => enough_data MINIMUM_AMOUNT_DATA (snd kv)) sd.
Proof.
  intros Hwf. unfold _filterStocks.
  rewrite (@filter_fold_app F MINIMUM_AMOUNT_DATA sd sd []).
  - reflexivity.
  - exact Hwf.
  - intros k s Hin. now apply in_items_get.
Qed.

Lemma filter_filter (A : Type) (f g : A -> bool) l :
  filter g (filter f l) = filter (fun x => f x && g x) l.
Proof.
  induction l as [|a l IH]; simpl; [reflexivity|].
  destruct (f a); simpl; [destruct (g a)|]; congruence.
Qed.

(** A tactic for the invariant of a dictionary written out. *)
Ltac wf_literal :=
  unfold wf; simpl; repeat constructor; simpl; intuition discriminate.

(** X1.  On a mapping with distinct keys [_filterStocks] returns the
    entries that meet the threshold in the order the mapping has them: it
    is the filter of the association list. *)
Theorem filterStocks_keeps_order (F : Type) (MINIMUM_AMOUNT_DATA : Z)
        (sd : StockDict F) :
  wf sd ->
  _filterStocks MINIMUM_AMOUNT_DATA sd
  = filter (fun kv =>
              (MINIMUM_AMOUNT_DATA
               <=? Z.of_nat (len (ordered_date_dict (snd kv))))%Z) sd.
Proof. intros Hwf. now apply filterStocks_filter. Qed.

Lemma filterStocks_keeps_order_witness :
  _filterStocks 4 three_assets
  = filter (fun kv =>
              (4 <=? Z.of_nat (len (ordered_date_dict (snd kv))))%Z)
           three_assets.
Proof.
  apply (@filterStocks_keeps_order float 4 three_assets). wf_literal.
Defined.

(** X2.  Filtering a filtered mapping with a second threshold is filtering
    the mapping once with the larger of the two; in particular filtering
    twice with one threshold changes nothing. *)
Theorem filterStocks_compose (F : Type) (m1 m2 : Z) (sd : StockDict F) :
  wf sd ->
  _filterStocks m2 (_filterStocks m1 sd) = _filterStocks (Z.max m1 m2) sd /\
  _filterStocks m1 (_filterStocks m1 sd) = _filterStocks m1 sd.
Proof.
  intros Hwf.
  assert (G : forall a b,
             _filterStocks b (_filterStocks a sd)
             = _filterStocks (Z.max a b) sd).
  { intros a b.
    rewrite (filterStocks_filter b (filterStocks_wf a sd)).
    rewrite !filterStocks_filter by assumption.
    rewrite filter_filter. apply filter_ext. intros [k s].
    unfold enough_data. simpl.
    destruct (Z.leb_spec a (Z.of_nat (len (ordered_date_dict s))));
      destruct (Z.leb_spec b (Z.of_nat (len (ordered_date_dict s))));
      destruct (Z.leb_spec (Z.max a b)
                           (Z.of_nat (len (ordered_date_dict s))));
      simpl; try reflexivity; lia. }
  split; [apply G|]. rewrite G. now rewrite Z.max_id.
Qed.

Lemma filterStocks_compose_witness :
  _filterStocks 5 (_filterStocks 4 three_assets)
  = _filterStocks (Z.max 4 5) three_assets /\
  _filterStocks 4 (_filterStocks 4 three_assets)
  = _filterStocks 4 three_assets.
Proof.
  apply (@filterStocks_compose float 4 5 three_assets). wf_literal.
Defined.

(** ** The second loop: all or nothing *)

Lemma complete_or_not (F : Type) n (dd : DateDict F) :
  (forall date, complete n dd date) \/
  (exists date inner,
      get_d dd date = Some inner /\ List.length (keys inner) < n).
Proof.
  pose (ok := fun date : Date =>
                match get_d dd date with
                | Some inner => n <=? List.length (keys inner)
                | None => true
                end).
  destruct (forallb ok (keys dd)) eqn:E.
  - left. intros date inner Hg. rewrite forallb_forall in E.
    assert (Hin : In date (keys dd))
      by (unfold get_d in Hg; eapply get_Some_in_keys; exact Hg).
    specialize (E date Hin). unfold ok in E. rewrite Hg in E.
    now apply Nat.leb_le.
  - right.
    assert (Hex : exists date, In date (keys dd) /\ ok date = false).
    { clear -E. induction (keys dd) as [|d ds IH]; [discriminate|].
      simpl in E. destruct (ok d) eqn:Ed.
      - destruct (IH E) as (date & Hin & Hd). exists date. simpl. auto.
      - exists d. simpl. auto. }
    destruct Hex as (date & _ & Hd). unfold ok in Hd.
    destruct (get_d dd date) as [inner|] eqn:Hg; [|discriminate].
    exists date, inner. split; [exact Hg|].
    apply Nat.leb_gt. exact Hd.
Qed.

(** X3.  The loop that removes the dates with missing tickers never
    returns a dictionary with a date removed: it returns [date_dict] as it
    was given, when every date has a price for [n] tickers or more, and it
    raises [RuntimeError] when some date has fewer. *)
Theorem remove_incomplete_all_or_nothing (F : Type) (n : nat)
        (dd : DateDict F) :
  (remove_incomplete n dd = Ok dd /\
   forall date inner, get_d dd date = Some inner ->
                      n <= List.length (keys inner)) \/
  (remove_incomplete n dd = Raise RuntimeError /\
   exists date inner,
     get_d dd date = Some inner /\ List.length (keys inner) < n).
Proof.
  destruct (complete_or_not n dd) as [Hc|(date & inner & Hg & Hlt)].
  - left. split; [now apply remove_incomplete_returns | exact Hc].
  - right. split; [|eauto].
    eapply remove_incomplete_raises; eassumption.
Qed.

(** ** The panel of a mapping keyed by its tickers *)

Section KeyedFacts.
Variable F : Type.

Lemma mapM_total (A B : Type) (f : A -> result B) l :
  (forall a, In a l -> exists b, f a = Ok b) -> exists bs, mapM f l = Ok bs.
Proof.
  induction l as [|a l IH]; intros H; simpl; [eauto|].
  destruct (H a (or_introl eq_refl)) as [b ->].
  destruct IH as [bs ->]; [intros; apply H; now right|].
  simpl. eauto.
Qed.

Lemma mapM_KeyError (A B : Type) (f : A -> result B) l a :
  (forall x e, f x = Raise e -> e = KeyError) ->
  In a l -> f a = Raise KeyError ->
  mapM f l = Raise KeyError.
Proof.
  intros Hf. induction l as [|x l IH]; intros Hin Ha; [destruct Hin|].
  simpl. destruct (f x) as [b|e] eqn:Ex.
  - destruct Hin as [->|Hin]; [congruence|].
    simpl. now rewrite IH.
  - simpl. f_equal. now apply Hf with x.
Qed.

Lemma values_in (sd : StockDict F) s :
  In s (values sd) <-> exists k, In (k, s) sd.
Proof.
  unfold values. rewrite in_map_iff. split.
  - intros ([k s'] & Heq & Hin). simpl in Heq. subst. eauto.
  - intros (k & Hin). exists (k, s). auto.
Qed.

Lemma keyed_tickers (sd : StockDict F) :
  keyed_by_ticker sd -> map (@ticker F) (values sd) = keys sd.
Proof.
  unfold keyed_by_ticker, values, keys. intros Hk.
  rewrite map_map. apply map_ext_in. intros [k s] Hin. simpl. now apply Hk.
Qed.

(** The tickers recorded for a date are tickers of stocks. *)
Lemma inner_keys_are_tickers (sd : StockDict F) date inner tk :
  get_d (build_date_dict sd) date = Some inner ->
  In tk (keys inner) ->
  exists s, In s (values sd) /\ ticker s = tk /\
            In date (keys (ordered_date_dict s)).
Proof.
  intros Hg Htk. pose proof (build_date_dict_sound sd) as Hsound.
  destruct (Hsound _ _ Hg) as [_ Hk].
  apply in_keys_get with (eq_dec := string_dec) in Htk as [p Hp].
  destruct (Hk tk p Hp) as (s & Hs & Ht & Hd).
  exists s. repeat split; try assumption.
  unfold get_d in Hd. eapply get_Some_in_keys. exact Hd.
Qed.

(** A complete date has a price for every key of a keyed mapping. *)
Lemma complete_covers_keys (sd : StockDict F) date inner tk :
  wf sd -> keyed_by_ticker sd ->
  get_d (build_date_dict sd) date = Some inner ->
  List.length (keys sd) <= List.length (keys inner) ->
  In tk (keys sd) -> In tk (keys inner).
Proof.
  intros Hwf Hkey Hg Hlen.
  pose proof (build_date_dict_sound sd) as Hsound.
  destruct (Hsound _ _ Hg) as [Hwfi _].
  apply (NoDup_length_incl Hwfi Hlen).
  intros tk' Htk'.
  destruct (@inner_keys_are_tickers sd date inner tk' Hg Htk')
    as (s & Hs & <- & _).
  rewrite <- (keyed_tickers Hkey). now apply in_map.
Qed.

Lemma panel_rows_keyed (sd : StockDict F) :
  wf sd -> keyed_by_ticker sd ->
  (forall date, complete (List.length (keys sd)) (build_date_dict sd) date) ->
  exists rows, panel_rows (canonical_tickers sd) sd = Ok rows.
Proof.
  intros Hwf Hkey Hc. unfold panel_rows.
  rewrite (remove_incomplete_returns Hc). simpl.
  apply mapM_total. intros date Hdate.
  pose proof (build_date_dict_wf sd) as Hdd.
  unfold panel_row. rewrite order_dates_get by assumption.
  rewrite order_dates_keys in Hdate.
  apply (Permutation_in _ (sorted_perm Z.leb _)) in Hdate.
  apply in_keys_get with (eq_dec := Z.eq_dec) in Hdate as [inner Hg].
  change (get_d (build_date_dict sd) date = Some inner) in Hg.
  rewrite Hg. apply mapM_total. intros tk Htk.
  apply canonical_tickers_in in Htk.
  pose proof (@complete_covers_keys sd date inner tk Hwf Hkey Hg
                (Hc date inner Hg) Htk) as Hin.
  apply in_keys_get with (eq_dec := string_dec) in Hin as [p Hp].
  exists p. unfold lookup_price.
  change (get_s inner tk = Some p) in Hp. now rewrite Hp.
Qed.

(** Filtering keeps a mapping keyed. *)
Lemma filterStocks_keyed MINIMUM_AMOUNT_DATA (sd : StockDict F) :
  wf sd -> keyed_by_ticker sd ->
  keyed_by_ticker (_filterStocks MINIMUM_AMOUNT_DATA sd).
Proof.
  intros Hwf Hkey k s Hin. rewrite filterStocks_filter in Hin by assumption.
  apply filter_In in Hin as [Hin _]. now apply Hkey.
Qed.

(** Every stock that reports a date has its ticker recorded for it. *)
Lemma record_price_keeps (s : Stock F) (dd : DateDict F) d date tk :
  (exists inner, get_d dd date = Some inner /\ In tk (keys inner)) ->
  exists inner, get_d (record_price s dd d) date = Some inner /\
                In tk (keys inner).
Proof.
  intros (inner & Hg & Htk).
  destruct (Z.eq_dec d date) as [->|Hne].
  - destruct (get_d (ordered_date_dict s) date) as [p|] eqn:Hp.
    + rewrite (@record_price_same F s dd date p Hp), Hg.
      eexists. split; [reflexivity|].
      unfold set_s. apply in_keys_set. now right.
    + rewrite record_price_eq, Hg, Hp. eauto.
  - rewrite record_price_other by assumption. eauto.
Qed.

Lemma record_price_adds (s : Stock F) (dd : DateDict F) date :
  In date (keys (ordered_date_dict s)) ->
  exists inner, get_d (record_price s dd date) date = Some inner /\
                In (ticker s) (keys inner).
Proof.
  intros Hd. apply in_keys_get with (eq_dec := Z.eq_dec) in Hd as [p Hp].
  rewrite (@record_price_same F s dd date p Hp).
  eexists. split; [reflexivity|].
  unfold set_s. apply in_keys_set. now left.
Qed.

Lemma record_stock_keeps (s : Stock F) (dd : DateDict F) date tk :
  (exists inner, get_d dd date = Some inner /\ In tk (keys inner)) ->
  exists inner, get_d (record_stock dd s) date = Some inner /\
                In tk (keys inner).
Proof.
  unfold record_stock. generalize (keys (ordered_date_dict s)) as ds.
  intros ds. revert dd. induction ds as [|d ds IH]; intros dd H; simpl.
  - exact H.
  - apply IH. now apply record_price_keeps.
Qed.

Lemma record_stock_adds (s : Stock F) (dd : DateDict F) date :
  In date (keys (ordered_date_dict s)) ->
  exists inner, get_d (record_stock dd s) date = Some inner /\
                In (ticker s) (keys inner).
Proof.
  unfold record_stock. intros Hd.
  assert (G : forall ds dd0,
             incl ds (keys (ordered_date_dict s)) -> In date ds ->
             exists inner,
               get_d (fold_left (record_price s) ds dd0) date = Some inner /\
               In (ticker s) (keys inner)).
  { induction ds as [|d ds IH]; intros dd0 Hincl Hin; [destruct Hin|].
    simpl.
    destruct (in_dec Z.eq_dec date ds) as [Hds|Hds].
    - apply IH; [|exact Hds]. intros x Hx. apply Hincl. now right.
    - destruct Hin as [->|Hin]; [|contradiction].
      assert (K : forall ds' dd1,
                 (exists inner, get_d dd1 date = Some inner /\
                                In (ticker s) (keys inner)) ->
                 exists inner,
                   get_d (fold_left (record_price s) ds' dd1) date
                   = Some inner /\ In (ticker s) (keys inner)).
      { induction ds' as [|d' ds' IH']; intros dd1 H1; simpl; [exact H1|].
        apply IH'. now apply record_price_keeps. }
      apply K. apply record_price_adds. apply Hincl. now left. }
  apply G; [apply incl_refl | exact Hd].
Qed.

Lemma build_date_dict_complete (sd : StockDict F) s date :
  In s (values sd) -> In date (keys (ordered_date_dict s)) ->
  exists inner, get_d (build_date_dict sd) date = Some inner /\
                In (ticker s) (keys inner).
Proof.
  unfold build_date_dict. revert s date.
  apply (fold_left_prefix_ind (@record_stock F)
           (fun dd seen =>
              forall s date, In s seen ->
                In date (keys (ordered_date_dict s)) ->
                exists inner, get_d dd date = Some inner /\
                              In (ticker s) (keys inner))).
  - intros s date [].
  - intros dd pre x IH s date Hs Hd.
    apply in_app_iff in Hs. destruct Hs as [Hs|[<-|[]]].
    + apply record_stock_keeps. now apply IH.
    + now apply record_stock_adds.
Qed.

(** When the stocks have distinct tickers and report the same dates,
    every date is complete. *)
Lemma common_dates_complete (sd : StockDict F) :
  NoDup (map (@ticker F) (values sd)) ->
  (forall s1 s2 date, In s1 (values sd) -> In s2 (values sd) ->
     In date (keys (ordered_date_dict s1)) ->
     In date (keys (ordered_date_dict s2))) ->
  forall date, complete (List.length (keys sd)) (build_date_dict sd) date.
Proof.
  intros Hnd Hcommon date inner Hg.
  assert (Hin : In date (keys (build_date_dict sd)))
    by (unfold get_d in Hg; eapply get_Some_in_keys; exact Hg).
  apply build_date_dict_keys in Hin as (s0 & Hs0 & Hd0).
  replace (List.length (keys sd))
    with (List.length (map (@ticker F) (values sd)))
    by (unfold keys, values; now rewrite !length_map).
  apply NoDup_incl_length; [exact Hnd|].
  intros tk Htk. apply in_map_iff in Htk as (s & <- & Hs).
  destruct (@build_date_dict_complete sd s date Hs
              (Hcommon s0 s date Hs0 Hs Hd0)) as (inner' & Hg' & Hin').
  congruence.
Qed.
End KeyedFacts.

Lemma reports_all_or_not (F : Type) (sd : StockDict F) date :
  (forall s, In s (values sd) -> In date (keys (ordered_date_dict s))) \/
  (exists s, In s (values sd) /\ ~ In date (keys (ordered_date_dict s))).
Proof.
  induction (values sd) as [|s l IH]; [left; intros s []|].
  destruct (in_dec Z.eq_dec date (keys (ordered_date_dict s))) as [Hs|Hs].
  - destruct IH as [IH|(s' & Hin & Hn)].
    + left. intros s' [<-|Hin]; auto.
    + right. exists s'. simpl. auto.
  - right. exists s. simpl. auto.
Qed.

(** An incomplete date of a keyed mapping is reported by one stock and
    not by another. *)
Lemma incomplete_is_partial (F : Type) (sd : StockDict F) date inner :
  wf sd -> keyed_by_ticker sd ->
  get_d (build_date_dict sd) date = Some inner ->
  List.length (keys inner) < List.length (keys sd) ->
  exists s1 s2, In s1 (values sd) /\ In s2 (values sd) /\
                In date (keys (ordered_date_dict s1)) /\
                ~ In date (keys (ordered_date_dict s2)).
Proof.
  intros Hwf Hkey Hg Hlt.
  assert (Hin : In date (keys (build_date_dict sd)))
    by (unfold get_d in Hg; eapply get_Some_in_keys; exact Hg).
  apply build_date_dict_keys in Hin as (s1 & Hs1 & Hd1).
  destruct (reports_all_or_not sd date) as [Hall|(s2 & Hs2 & Hn)].
  - exfalso.
    assert (Hle : List.length (keys sd) <= List.length (keys inner)).
    { rewrite <- (keyed_tickers Hkey).
      apply NoDup_incl_length.
      - rewrite (keyed_tickers Hkey). exact Hwf.
      - intros tk Htk. apply in_map_iff in Htk as (s & <- & Hs).
        destruct (@build_date_dict_complete F sd s date Hs (Hall s Hs))
          as (inner' & Hg' & Hin'). congruence. }
    lia.
  - exists s1, s2. auto.
Qed.

(** X4.  For a mapping with distinct keys, keyed by the tickers of its
    stocks, in which every stock reports the dates the others report,
    [_getFilteredPrices] returns the panel and raises nothing: one row for
    each date reported, the dates in ascending order, and in every row the
    price of each ticker for that date, in the order of the tickers. *)
Theorem getFilteredPrices_common_dates (F : Type) (num : Numeric F)
        (sd : StockDict F) :
  wf sd -> keyed_by_ticker sd ->
  (forall s1 s2 date, In s1 (values sd) -> In s2 (values sd) ->
     In date (keys (ordered_date_dict s1)) ->
     In date (keys (ordered_date_dict s2))) ->
  exists dates rows,
    _getFilteredPrices (canonical_tickers sd) sd = Ok (np_array rows) /\
    Sorted (fun a b => (a <=? b)%Z = true) dates /\
    NoDup dates /\
    (forall date, In date dates <->
       exists s, In s (values sd) /\
                 In date (keys (ordered_date_dict s))) /\
    Forall2 (fun date row =>
               Forall2 (fun tk p =>
                          exists s, get_s sd tk = Some s /\
                            get_d (ordered_date_dict s) date = Some p)
                       (canonical_tickers sd) row)
            dates rows.
Proof.
  intros Hwf Hkey Hcommon.
  assert (Hc : forall date,
             complete (List.length (keys sd)) (build_date_dict sd) date).
  { apply common_dates_complete; [|exact Hcommon].
    rewrite (keyed_tickers Hkey). exact Hwf. }
  destruct (panel_rows_keyed Hwf Hkey Hc) as [rows Hrows].
  exists (sorted Z.leb (keys (build_date_dict sd))), rows.
  split; [unfold _getFilteredPrices; now rewrite Hrows|].
  destruct (aligned_panel_rows _ Hwf Hkey Hrows) as (Hs & Hnd & Hin & Hall).
  repeat split; try assumption.
  - intros Hd. apply Hin in Hd. tauto.
  - intros (s & Hs' & Hd). apply Hin. split; [eauto|].
    intros s' Hs''. now apply (Hcommon s s').
Qed.

Lemma getFilteredPrices_common_dates_witness :
  exists dates rows,
    _getFilteredPrices (canonical_tickers two_assets_full) two_assets_full
    = Ok (np_array rows) /\
    Sorted (fun a b => (a <=? b)%Z = true) dates /\
    NoDup dates /\
    (forall date, In date dates <->
       exists s, In s (values two_assets_full) /\
                 In date (keys (ordered_date_dict s))) /\
    Forall2 (fun date row =>
               Forall2 (fun tk p =>
                          exists s, get_s two_assets_full tk = Some s /\
                            get_d (ordered_date_dict s) date = Some p)
                       (canonical_tickers two_assets_full) row)
            dates rows.
Proof.
  apply (@getFilteredPrices_common_dates float Numeric_float two_assets_full).
  - wf_literal.
  - intros k s Hin. simpl in Hin.
    destruct Hin as [Hin|[Hin|[]]]; injection Hin as <- <-; reflexivity.
  - intros s1 s2 date H1 H2. simpl in H1, H2.
    destruct H1 as [<-|[<-|[]]]; destruct H2 as [<-|[<-|[]]]; simpl; tauto.
Defined.

(** The outcomes of construction on a keyed mapping. *)
Lemma init_keyed_cases (F : Type) (num : Numeric F)
        (MINIMUM_AMOUNT_DATA : Z) (sd : StockDict F) :
  wf sd -> keyed_by_ticker sd ->
  let survivors := _filterStocks MINIMUM_AMOUNT_DATA sd in
  ((exists db, __init__ MINIMUM_AMOUNT_DATA sd = Ok db) /\
   forall s1 s2 date, In s1 (values survivors) -> In s2 (values survivors) ->
     In date (keys (ordered_date_dict s1)) ->
     In date (keys (ordered_date_dict s2))) \/
  (__init__ MINIMUM_AMOUNT_DATA sd = Raise RuntimeError /\
   exists s1 s2 date, In s1 (values survivors) /\ In s2 (values survivors) /\
     In date (keys (ordered_date_dict s1)) /\
     ~ In date (keys (ordered_date_dict s2))).
Proof.
  intros Hwf Hkey survivors.
  assert (Hwf' : wf survivors) by apply filterStocks_wf.
  assert (Hkey' : keyed_by_ticker survivors)
    by (now apply filterStocks_keyed).
  destruct (complete_or_not (List.length (keys survivors))
              (build_date_dict survivors))
    as [Hc|(date & inner & Hg & Hlt)].
  - left. split.
    + destruct (panel_rows_keyed Hwf' Hkey' Hc) as [rows Hrows].
      eexists. apply init_of_panel. fold survivors.
      unfold _getFilteredPrices. rewrite Hrows. reflexivity.
    + intros s1 s2 date H1 H2 Hd.
      destruct (in_dec Z.eq_dec date (keys (ordered_date_dict s2)))
        as [|Hn]; [assumption|exfalso].
      assert (Hin : In date (keys (build_date_dict survivors)))
        by (apply build_date_dict_keys; eauto).
      apply in_keys_get with (eq_dec := Z.eq_dec) in Hin as [inner Hg].
      pose proof (@partial_date_count F survivors date inner s2 Hg H2 Hn).
      pose proof (Hc date inner Hg). lia.
  - right. split.
    + unfold __init__. fold survivors. unfold _getFilteredPrices, panel_rows.
      now rewrite (@remove_incomplete_raises F _ _ date inner Hg Hlt).
    + destruct (incomplete_is_partial date Hwf' Hkey' Hg Hlt)
        as (s1 & s2 & H1 & H2 & Hd & Hn).
      exists s1, s2, date. auto.
Qed.

(** X5.  For a mapping with distinct keys, keyed by the tickers of its
    stocks, construction has two outcomes only.  It returns a database
    when every surviving stock reports the dates the other surviving
    stocks report; it raises [RuntimeError] when some date is reported by
    one surviving stock and not by another.  No [KeyError] leaves it. *)
Theorem init_outcome (F : Type) (num : Numeric F)
        (MINIMUM_AMOUNT_DATA : Z) (sd : StockDict F) :
  wf sd -> keyed_by_ticker sd ->
  let survivors := _filterStocks MINIMUM_AMOUNT_DATA sd in
  ((exists db, __init__ MINIMUM_AMOUNT_DATA sd = Ok db) /\
   forall s1 s2 date, In s1 (values survivors) -> In s2 (values survivors) ->
     In date (keys (ordered_date_dict s1)) ->
     In date (keys (ordered_date_dict s2))) \/
  (__init__ MINIMUM_AMOUNT_DATA sd = Raise RuntimeError /\
   exists s1 s2 date, In s1 (values survivors) /\ In s2 (values survivors) /\
     In date (keys (ordered_date_dict s1)) /\
     ~ In date (keys (ordered_date_dict s2))).
Proof. apply init_keyed_cases. Qed.

Lemma init_outcome_witness :
  let survivors := _filterStocks 1 two_assets_partial in
  ((exists db, __init__ 1 two_assets_partial = Ok db) /\
   forall s1 s2 date, In s1 (values survivors) -> In s2 (values survivors) ->
     In date (keys (ordered_date_dict s1)) ->
     In date (keys (ordered_date_dict s2))) \/
  (__init__ 1 two_assets_partial = Raise RuntimeError /\
   exists s1 s2 date, In s1 (values survivors) /\ In s2 (values survivors) /\
     In date (keys (ordered_date_dict s1)) /\
     ~ In date (keys (ordered_date_dict s2))).
Proof.
  apply (@init_outcome float Numeric_float 1 two_assets_partial).
  - wf_literal.
  - intros k s Hin. simpl in Hin.
    destruct Hin as [Hin|[Hin|[]]]; injection Hin as <- <-; reflexivity.
Defined.

(** X6.  When a key of the mapping is not the ticker of any stock, while
    the stocks have distinct tickers and report the same dates, one at
    least, the lookup of that key in the prices of a date fails:
    [_getFilteredPrices] raises [KeyError]. *)
Theorem getFilteredPrices_unknown_key (F : Type) (num : Numeric F)
        (sd : StockDict F) (tk : Ticker) (s0 : Stock F) (d0 : Date) :
  NoDup (map (@ticker F) (values sd)) ->
  (forall s1 s2 date, In s1 (values sd) -> In s2 (values sd) ->
     In date (keys (ordered_date_dict s1)) ->
     In date (keys (ordered_date_dict s2))) ->
  In s0 (values sd) -> In d0 (keys (ordered_date_dict s0)) ->
  In tk (keys sd) ->
  (forall s, In s (values sd) -> ticker s <> tk) ->
  _getFilteredPrices (canonical_tickers sd) sd = Raise KeyError.
Proof.
  intros Hnd Hcommon Hs0 Hd0 Htk Hno.
  pose proof (@common_dates_complete F sd Hnd Hcommon) as Hc.
  pose proof (build_date_dict_wf sd) as Hdd.
  unfold _getFilteredPrices, panel_rows.
  rewrite (remove_incomplete_returns Hc). simpl.
  assert (Hrow : forall date, In date (keys (build_date_dict sd)) ->
             panel_row (canonical_tickers sd)
                       (order_dates (build_date_dict sd)) date
             = Raise KeyError).
  { intros date Hdate. unfold panel_row.
    rewrite order_dates_get by assumption.
    apply in_keys_get with (eq_dec := Z.eq_dec) in Hdate as [inner Hg].
    change (get_d (build_date_dict sd) date = Some inner) in Hg.
    rewrite Hg. apply mapM_KeyError with tk.
    - intros x e. unfold lookup_price.
      destruct (get_s inner x); [discriminate | congruence].
    - now apply canonical_tickers_in.
    - unfold lookup_price.
      destruct (get_s inner tk) as [p|] eqn:Hp; [exfalso|reflexivity].
      unfold get_s in Hp. apply get_Some_in_keys in Hp.
      destruct (@inner_keys_are_tickers F sd date inner tk Hg Hp)
        as (s & Hs & Ht & _).
      now apply (Hno s). }
  assert (Hne : exists d ds, keys (order_dates (build_date_dict sd)) = d :: ds).
  { assert (Hin : In d0 (keys (order_dates (build_date_dict sd)))).
    { rewrite order_dates_keys.
      apply (Permutation_in _
               (Permutation_sym (sorted_perm Z.leb _))).
      apply build_date_dict_keys. eauto. }
    destruct (keys (order_dates (build_date_dict sd))) as [|d ds];
      [destruct Hin | eauto]. }
  destruct Hne as (d & ds & Hk).
  assert (Hd : In d (keys (build_date_dict sd))).
  { apply (Permutation_in _ (sorted_perm Z.leb _)).
    rewrite <- order_dates_keys, Hk. now left. }
  rewrite Hk. simpl. now rewrite (Hrow d Hd).
Qed.

Lemma getFilteredPrices_unknown_key_witness :
  _getFilteredPrices (canonical_tickers mismatched_key) mismatched_key
  = Raise KeyError.
Proof.
  apply (@getFilteredPrices_unknown_key float Numeric_float mismatched_key
           "X"%string
           (mkStock "A"%string [(1%Z, 1%float); (2%Z, 2%float)]) 1%Z).
  - simpl. repeat constructor. simpl. tauto.
  - intros s1 s2 date H1 H2. simpl in H1, H2.
    destruct H1 as [<-|[]]; destruct H2 as [<-|[]]. tauto.
  - simpl. auto.
  - simpl. auto.
  - simpl. auto.
  - intros s Hs. simpl in Hs. destruct Hs as [<-|[]]. discriminate.
Defined.

(** X7.  A panel that [_getFilteredPrices] returns is either the empty
    1-d array, when no date is recorded, or a 2-d array with one row at
    least, as many columns as there are tickers, and no row shorter or
    longer than that. *)
Theorem getFilteredPrices_rectangular (F : Type) (num : Numeric F)
        (tks : list Ticker) (sd : StockDict F) (p : ndarray F) :
  _getFilteredPrices tks sd = Ok p ->
  (p = Arr1 [] /\ build_date_dict sd = []) \/
  (exists rows,
      p = Arr2 (List.length rows) (List.length tks) rows /\
      1 <= List.length rows /\
      List.length rows = len (build_date_dict sd) /\
      Forall (fun row => List.length row = List.length tks) rows).
Proof.
  unfold _getFilteredPrices. intros H.
  destruct (panel_rows tks sd) as [rows|] eqn:E; simpl in H; [|discriminate].
  injection H as <-. apply panel_rows_Ok in E as (_ & Hlen & Hrect).
  destruct rows as [|r0 rows].
  - left. split; [reflexivity|].
    destruct (build_date_dict sd); [reflexivity | discriminate Hlen].
  - right. exists (r0 :: rows). repeat split; try assumption.
    + unfold np_array. f_equal. now inversion Hrect.
    + simpl. lia.
Qed.

Lemma getFilteredPrices_rectangular_witness :
  (Arr2 3 2 [[1; 1]; [2; 3]; [4; 6]]%float = Arr1 [] /\
   build_date_dict two_assets_full = []) \/
  (exists rows,
      Arr2 3 2 [[1; 1]; [2; 3]; [4; 6]]%float
      = Arr2 (List.length rows)
             (List.length ["A"%string; "B"%string]) rows /\
      1 <= List.length rows /\
      List.length rows = len (build_date_dict two_assets_full) /\
      Forall (fun row => List.length row
                         = List.length ["A"%string; "B"%string]) rows).
Proof.
  apply (@getFilteredPrices_rectangular float Numeric_float
           ["A"%string; "B"%string] two_assets_full).
  reflexivity.
Defined.

(** ** Returns and statistics over the real numbers *)

Section RealVectors.
Local Open Scope R_scope.

Lemma fsum_cons (x : R) (l : list R) : fsum (x :: l) = x + fsum l.
Proof.
  unfold fsum. simpl. rewrite fold_plus_shift. ring.
Qed.

Lemma fsum_nil : fsum (@nil R) = 0.
Proof. reflexivity. Qed.

Lemma dot_cons (x y : R) xs ys :
  dot (x :: xs) (y :: ys) = x * y + dot xs ys.
Proof. unfold dot. simpl zip_with. now rewrite fsum_cons. Qed.

Lemma dot_nil_l (ys : list R) : dot [] ys = 0.
Proof. reflexivity. Qed.

Lemma dot_nil_r (xs : list R) : dot xs [] = 0.
Proof. destruct xs; reflexivity. Qed.

(** Cauchy and Schwarz. *)
Lemma dot_square_le (xs ys : list R) :
  dot xs ys * dot xs ys <= dot xs xs * dot ys ys.
Proof.
  revert ys. induction xs as [|x xs IH]; intros [|y ys].
  - rewrite !dot_nil_l. lra.
  - rewrite !dot_nil_l. lra.
  - rewrite !dot_nil_r. lra.
  - rewrite !dot_cons. specialize (IH ys).
    pose proof (dot_self_nonneg xs) as Ha.
    pose proof (dot_self_nonneg ys) as Hb.
    revert IH Ha Hb.
    generalize (dot xs xs) as a, (dot ys ys) as b, (dot xs ys) as c.
    intros a b c IH Ha Hb.
    assert (H2 : 2 * (x * y * c) <= x * x * b + y * y * a).
    { destruct (Rle_lt_or_eq_dec 0 b Hb) as [Hpos|Hz].
      - pose proof (Rle_0_sqr (x * b - y * c)) as Hsq. unfold Rsqr in Hsq.
        pose proof (Rmult_le_compat_l (y * y) _ _ (Rle_0_sqr y) IH) as Hy.
        apply Rmult_le_reg_r with b; [assumption|]. nra.
      - subst b. assert (Hc : c = 0) by nra. subst c. nra. }
    nra.
Qed.

Lemma dot_vscale_l t (xs v : list R) :
  dot (vscale t xs) v = t * dot xs v.
Proof.
  revert v. induction xs as [|x xs IH]; intros [|y v]; unfold vscale;
    simpl map; rewrite ?dot_nil_l, ?dot_nil_r, ?dot_cons; try ring.
  fold (vscale t xs). rewrite IH. ring.
Qed.

Lemma dot_vadd_l (xs ys v : list R) :
  List.length xs = List.length ys ->
  dot (vadd xs ys) v = dot xs v + dot ys v.
Proof.
  revert ys v. induction xs as [|x xs IH]; intros [|y ys] [|z v] Hlen;
    try discriminate Hlen; unfold vadd; simpl zip_with;
    rewrite ?dot_nil_l, ?dot_nil_r, ?dot_cons; try ring.
  fold (vadd xs ys). rewrite IH by (simpl in Hlen; lia). ring.
Qed.

Lemma dot_repeat_zero n (v : list R) : dot (repeat 0 n) v = 0.
Proof.
  revert v. induction n as [|n IH]; intros [|z v]; simpl repeat;
    rewrite ?dot_nil_l, ?dot_nil_r, ?dot_cons; try ring.
  rewrite IH. ring.
Qed.

Lemma lincomb_length n vs w :
  Forall (fun v => List.length v = n) vs ->
  List.length (lincomb n vs w) = n.
Proof.
  revert w. induction vs as [|v vs IH]; intros w Hvs; simpl.
  - apply repeat_length.
  - destruct w as [|t w]; [apply repeat_length|].
    inversion Hvs as [|? ? Hv Hvs']; subst.
    unfold vadd, vscale. rewrite zip_with_length, length_map, IH by assumption.
    apply Nat.min_id.
Qed.

(** The weighted sum of the products with [u] is the product of the
    combination with [u]. *)
Lemma dot_lincomb n vs w (g : list R -> R) (b : R) (u : list R) :
  Forall (fun v => List.length v = n) vs ->
  (forall v, g v = b * dot v u) ->
  dot (map g vs) w = b * dot (lincomb n vs w) u.
Proof.
  intros Hvs Hg. revert w.
  induction vs as [|v vs IH]; intros w; simpl.
  - rewrite dot_nil_l, dot_repeat_zero. ring.
  - destruct w as [|t w].
    + rewrite dot_nil_r, dot_repeat_zero. ring.
    + inversion Hvs as [|? ? Hv Hvs']; subst.
      rewrite dot_cons, IH, Hg by assumption.
      rewrite dot_vadd_l, dot_vscale_l.
      * ring.
      * unfold vscale. rewrite length_map.
        now rewrite lincomb_length.
Qed.

Lemma centered_length (ret : list (list R)) n_obs j :
  List.length (centered ret n_obs j) = List.length ret.
Proof. unfold centered, column. now rewrite !length_map. Qed.
End RealVectors.

Section RealStatistics.
Local Open Scope R_scope.

Lemma nth_zip_with_Rdiv (xs ys : list R) j :
  (j < List.length xs)%nat -> (j < List.length ys)%nat ->
  nth j (zip_with Rdiv xs ys) 0 = nth j xs 0 / nth j ys 0.
Proof.
  intros Hx Hy. apply nth_error_nth.
  apply nth_error_zip_with; now apply nth_error_nth'.
Qed.

(** The returns of a panel of two rows or more, row by row. *)
Lemma returns_cons (r0 r1 : list R) rest :
  zip_with (zip_with fdiv) (tl (r0 :: r1 :: rest))
           (removelast (r0 :: r1 :: rest))
  = zip_with Rdiv r1 r0
    :: zip_with (zip_with fdiv) (tl (r1 :: rest)) (removelast (r1 :: rest)).
Proof. reflexivity. Qed.

Lemma compound_returns (n j : nat) (rows : list (list R)) (r0 : list R) :
  Forall (fun row => List.length row = n) (r0 :: rows) ->
  Forall (Forall (fun p => p <> 0)) (r0 :: rows) ->
  (j < n)%nat ->
  nth j (last (r0 :: rows) []) 0
  = nth j r0 0 *
    fold_right Rmult 1
      (column (zip_with (zip_with fdiv) (tl (r0 :: rows))
                        (removelast (r0 :: rows))) j).
Proof.
  revert r0. induction rows as [|r1 rest IH]; intros r0 Hlen Hnz Hj.
  - simpl. ring.
  - rewrite returns_cons.
    change (last (r0 :: r1 :: rest) []) with (last (r1 :: rest) []).
    inversion Hlen as [|? ? Hl0 Hlen']; subst.
    inversion Hnz as [|? ? Hz0 Hnz']; subst.
    rewrite (IH r1 Hlen' Hnz' Hj).
    unfold column at 2. simpl map. fold (column (F := R)).
    simpl fold_right.
    assert (Hl1 : List.length r1 = List.length r0)
      by (now inversion Hlen').
    change (@of_int R Numeric_R 0) with 0.
    rewrite nth_zip_with_Rdiv by lia.
    assert (H0 : nth j r0 0 <> 0).
    { rewrite Forall_forall in Hz0. apply Hz0. apply nth_In. lia. }
    unfold column. change (@of_int R Numeric_R 0) with 0.
    field. exact H0.
Qed.

Lemma clip_inside (v : R) : -1 <= v <= 1 -> clip v = v.
Proof.
  intros [Hl Hu]. unfold clip. simpl.
  rewrite Rmax_left by lra. apply Rmin_left. exact Hu.
Qed.

Lemma cross_bound (ret : list (list R)) j k :
  0 < cross ret j j -> 0 < cross ret k k ->
  -1 <= cross ret j k / (sqrt (cross ret j j) * sqrt (cross ret k k)) <= 1.
Proof.
  intros Hj Hk. unfold cross in *.
  pose proof (dot_square_le (centered ret (List.length ret) j)
                            (centered ret (List.length ret) k)) as Hcs.
  revert Hj Hk Hcs.
  generalize (dot (centered ret (List.length ret) j)
                  (centered ret (List.length ret) j)) as a.
  generalize (dot (centered ret (List.length ret) k)
                  (centered ret (List.length ret) k)) as b.
  generalize (dot (centered ret (List.length ret) j)
                  (centered ret (List.length ret) k)) as c.
  intros c b a Hj Hk Hcs.
  pose proof (sqrt_lt_R0 a Hj) as Hsa. pose proof (sqrt_lt_R0 b Hk) as Hsb.
  set (D := sqrt a * sqrt b).
  assert (HD : 0 < D) by (unfold D; nra).
  assert (HDD : D * D = a * b).
  { unfold D. pose proof (sqrt_sqrt a (Rlt_le _ _ Hj)).
    pose proof (sqrt_sqrt b (Rlt_le _ _ Hk)). nra. }
  assert (Hc : - D <= c <= D) by (split; nra).
  split.
  - apply Rmult_le_reg_r with D; [exact HD|].
    unfold Rdiv. rewrite Rmult_assoc, Rinv_l by lra. lra.
  - apply Rmult_le_reg_r with D; [exact HD|].
    unfold Rdiv. rewrite Rmult_assoc, Rinv_l by lra. lra.
Qed.

Lemma normalised_ratio (c a b t : R) :
  0 < a -> 0 < b -> 0 < t ->
  c * t / sqrt (a * t) / sqrt (b * t) = c / (sqrt a * sqrt b).
Proof.
  intros Ha Hb Ht.
  rewrite !sqrt_mult by lra.
  pose proof (sqrt_lt_R0 a Ha). pose proof (sqrt_lt_R0 b Hb).
  pose proof (sqrt_lt_R0 t Ht). pose proof (sqrt_sqrt t (Rlt_le _ _ Ht)).
  replace (c * t) with (c * (sqrt t * sqrt t)) by (f_equal; assumption).
  field. repeat split; lra.
Qed.

Lemma cov_entry_cross (ret : list (list R)) ddof j k :
  (ddof < Z.of_nat (List.length ret))%Z ->
  cov_entry ret (List.length ret) (fact_of (List.length ret) ddof) j k
  = cross ret j k * (1 / IZR (Z.of_nat (List.length ret) - ddof)).
Proof.
  intros H. unfold cov_entry, cross. now rewrite fact_of_R.
Qed.

Lemma cross_pos (ret : list (list R)) j :
  (1 <= List.length ret)%nat ->
  population_cov ret j j <> 0 -> 0 < cross ret j j.
Proof.
  intros HN Hvar. rewrite <- cov_entry_population in Hvar by assumption.
  rewrite cov_entry_cross in Hvar by lia.
  pose proof (dot_self_nonneg (centered ret (List.length ret) j)) as Hd.
  fold (cross ret j j) in Hd.
  destruct (Rle_lt_or_eq_dec _ _ Hd) as [|Hz]; [assumption|].
  exfalso. apply Hvar. rewrite <- Hz. ring.
Qed.

Lemma inv_count_pos (n : nat) (ddof : Z) :
  (ddof < Z.of_nat n)%Z -> 0 < 1 / IZR (Z.of_nat n - ddof).
Proof.
  intros H. unfold Rdiv. rewrite Rmult_1_l.
  apply Rinv_0_lt_compat. apply IZR_lt. lia.
Qed.

Lemma corr_entry_pearson (ret : list (list R)) j k :
  (2 <= List.length ret)%nat ->
  population_cov ret j j <> 0 -> population_cov ret k k <> 0 ->
  corr_entry ret (List.length ret) j k
  = population_cov ret j k
    / (sqrt (population_cov ret j j) * sqrt (population_cov ret k k)).
Proof.
  intros HN Hj Hk.
  pose proof (@cross_pos ret j ltac:(lia) Hj) as Hcj.
  pose proof (@cross_pos ret k ltac:(lia) Hk) as Hck.
  rewrite <- !cov_entry_population by lia.
  unfold corr_entry. cbv zeta. rewrite !cov_entry_cross by lia.
  pose proof (@inv_count_pos (List.length ret) 1%Z ltac:(lia)) as H1.
  pose proof (@inv_count_pos (List.length ret) 0%Z ltac:(lia)) as H0.
  change (@fdiv R Numeric_R) with Rdiv. change (@fsqrt R Numeric_R) with sqrt.
  rewrite normalised_ratio by assumption.
  rewrite clip_inside by (now apply cross_bound).
  rewrite <- (normalised_ratio (cross ret j k) Hcj Hck H0).
  unfold Rdiv. rewrite Rinv_mult. ring.
Qed.
End RealStatistics.

(** X8.  Compounding the returns of a column gives back the price: over
    the real numbers, for a panel without a zero price, the last price of
    an asset is its first price multiplied by all its returns. *)
Theorem returns_compound (rows ret : list (list R)) (r0 : list R)
        (r n j : nat) :
  Forall (fun row => List.length row = n) (r0 :: rows) ->
  all_entries (fun p => p <> 0%R) (np_array (r0 :: rows)) ->
  price_change_array (np_array (r0 :: rows)) = Arr2 r n ret ->
  j < n ->
  nth j (last (r0 :: rows) []) 0%R
  = (nth j r0 0 * fold_right Rmult 1 (column ret j))%R.
Proof.
  intros Hlen Hnz Hret Hj. unfold np_array in Hret, Hnz.
  rewrite price_change_Arr2 in Hret. injection Hret as _ _ <-.
  now apply compound_returns with n.
Qed.

Lemma returns_compound_witness :
  nth 1 (last [[1; 1]; [2; 3]; [4; 6]]%R []) 0%R
  = (nth 1 [1; 1] 0
     * fold_right Rmult 1 (column [[2 / 1; 3 / 1]; [4 / 2; 6 / 3]] 1))%R.
Proof.
  apply (@returns_compound [[2; 3]; [4; 6]]%R
           [[2 / 1; 3 / 1]; [4 / 2; 6 / 3]]%R [1; 1]%R 2 2 1).
  - repeat constructor.
  - simpl. repeat constructor; lra.
  - reflexivity.
  - lia.
Defined.

(** X9.  Over the real numbers, for returns of two rows and two columns or
    more without a column of zero variance, the correlation that
    [_getCorrelationArray] returns is Pearson's: the population covariance
    of the two columns divided by the product of their standard
    deviations.  The normalisation by N - 1 that [np.corrcoef] uses
    cancels, and the clipping to [-1, 1] changes nothing. *)
Theorem correlation_is_pearson (price_array : ndarray R)
        (ret : list (list R)) (n : nat) :
  all_entries (fun p => p <> 0%R) price_array ->
  price_change_array price_array = Arr2 (List.length ret) n ret ->
  2 <= List.length ret -> 2 <= n ->
  (forall j, j < n -> population_cov ret j j <> 0%R) ->
  forall j k, j < n -> k < n ->
    entry (_getCorrelationArray price_array) j k
    = Some (population_cov ret j k
            / (sqrt (population_cov ret j j)
               * sqrt (population_cov ret k k)))%R.
Proof.
  intros _ Hret HN Hn Hvar j k Hj Hk.
  unfold _getCorrelationArray. rewrite Hret.
  rewrite corrcoef_entry by assumption.
  f_equal. apply corr_entry_pearson; auto.
Qed.

Lemma correlation_is_pearson_witness :
  let ret := [[2 / 1; 3 / 1]; [2 / 2; 6 / 3]]%R in
  entry (_getCorrelationArray (Arr2 3 2 [[1; 1]; [2; 3]; [2; 6]]%R)) 0 1
  = Some (population_cov ret 0 1
          / (sqrt (population_cov ret 0 0)
             * sqrt (population_cov ret 1 1)))%R.
Proof.
  apply (@correlation_is_pearson
           (Arr2 3 2 [[1; 1]; [2; 3]; [2; 6]]%R)
           [[2 / 1; 3 / 1]; [2 / 2; 6 / 3]]%R 2).
  - simpl. repeat constructor; lra.
  - reflexivity.
  - simpl. lia.
  - lia.
  - intros j Hj.
    assert (E : population_cov [[2 / 1; 3 / 1]; [2 / 2; 6 / 3]]%R j j
                = (1 / 4)%R).
    { destruct j as [|[|j]]; [| |lia];
        unfold population_cov, mean, fsum, column; simpl; field. }
    rewrite E. lra.
  - lia.
  - lia.
Defined.

Section RealQuadratic.
Local Open Scope R_scope.

Lemma cov_matrix_columns (ret : list (list R)) n_obs n (fact : R) :
  cov_matrix ret n_obs n fact
  = map (fun u => map (fun v => (1 / fact) * dot v u)
                      (map (centered ret n_obs) (seq 0 n)))
        (map (centered ret n_obs) (seq 0 n)).
Proof.
  unfold cov_matrix. rewrite map_map. apply map_ext. intros j.
  rewrite map_map. apply map_ext. intros k.
  unfold cov_entry. simpl. rewrite (dot_comm_R (centered ret n_obs k)).
  ring.
Qed.

Lemma quadratic_form_square (ret : list (list R)) n_obs n (fact : R) w :
  List.length ret = n_obs ->
  let L := lincomb n_obs (map (centered ret n_obs) (seq 0 n)) w in
  quadratic_form w (cov_matrix ret n_obs n fact)
  = (1 / fact) * dot L L.
Proof.
  intros HN L. unfold quadratic_form. rewrite cov_matrix_columns.
  set (Ds := map (centered ret n_obs) (seq 0 n)) in *.
  assert (HDs : Forall (fun v => List.length v = n_obs) Ds).
  { unfold Ds. apply Forall_forall. intros v Hv.
    apply in_map_iff in Hv as (j & <- & _).
    now rewrite centered_length. }
  rewrite map_map.
  rewrite (map_ext _ (fun u => (1 / fact) * dot u L)).
  - rewrite dot_comm_R.
    now rewrite (@dot_lincomb n_obs Ds w _ (1 / fact) L HDs).
  - intros u.
    rewrite (@dot_lincomb n_obs Ds w _ (1 / fact) u HDs); [|reflexivity].
    fold L. now rewrite dot_comm_R.
Qed.

Lemma scaled_ratio (cs xs ys : list R) :
  List.length xs = List.length cs -> List.length ys = List.length cs ->
  Forall (fun c => c <> 0) cs -> Forall (fun y => y <> 0) ys ->
  zip_with Rdiv (zip_with Rmult cs xs) (zip_with Rmult cs ys)
  = zip_with Rdiv xs ys.
Proof.
  revert xs ys. induction cs as [|c cs IH]; intros [|x xs] [|y ys] Hx Hy Hc Hn;
    try discriminate; [reflexivity|].
  inversion Hc; inversion Hn; subst. simpl. f_equal.
  - field. auto.
  - apply IH; auto.
Qed.

Lemma scaled_returns (cs : list R) (rows : list (list R)) :
  Forall (fun row => List.length row = List.length cs) rows ->
  Forall (fun c => c <> 0) cs ->
  Forall (Forall (fun p => p <> 0)) rows ->
  zip_with (zip_with fdiv) (tl (map (zip_with Rmult cs) rows))
           (removelast (map (zip_with Rmult cs) rows))
  = zip_with (zip_with fdiv) (tl rows) (removelast rows).
Proof.
  intros Hlen Hc Hnz.
  induction rows as [|r0 rows IH]; [reflexivity|].
  destruct rows as [|r1 rest]; [reflexivity|].
  inversion Hlen as [|? ? Hl0 Hlen']; subst.
  inversion Hnz as [|? ? Hz0 Hnz']; subst.
  change (map (zip_with Rmult cs) (r0 :: r1 :: rest))
    with (zip_with Rmult cs r0 :: zip_with Rmult cs r1
          :: map (zip_with Rmult cs) rest).
  rewrite !returns_cons. f_equal.
  - inversion Hlen'; subst. now apply scaled_ratio.
  - apply (IH Hlen' Hnz').
Qed.
End RealQuadratic.

(** X10.  Over the real numbers the covariance that
    [_getCovarianceArray] returns for two columns or more is positive
    semidefinite: the variance [w' C w] of a portfolio is never negative,
    whatever the weights. *)
Theorem covariance_positive_semidefinite (price_array : ndarray R)
        (ret : list (list R)) (n : nat) (w : list R) :
  all_entries (fun p => p <> 0%R) price_array ->
  price_change_array price_array = Arr2 (List.length ret) n ret ->
  1 <= List.length ret -> 2 <= n ->
  exists C, _getCovarianceArray price_array = Arr2 n n C /\
            (0 <= quadratic_form w C)%R.
Proof.
  intros _ Hret HN Hn. unfold _getCovarianceArray. rewrite Hret.
  rewrite np_cov_Arr2 by lia. rewrite squeeze_square by assumption.
  eexists. split; [reflexivity|].
  rewrite quadratic_form_square by reflexivity.
  rewrite fact_of_R by lia.
  apply Rmult_le_pos; [|apply dot_self_nonneg].
  apply Rlt_le. change (@of_int R Numeric_R 1) with 1%R.
  apply inv_count_pos. lia.
Qed.

Lemma covariance_positive_semidefinite_witness :
  exists C,
    _getCovarianceArray (Arr2 3 2 [[1; 1]; [2; 3]; [2; 6]]%R) = Arr2 2 2 C /\
    (0 <= quadratic_form [1 / 2; 1 / 2] C)%R.
Proof.
  apply (@covariance_positive_semidefinite
           (Arr2 3 2 [[1; 1]; [2; 3]; [2; 6]]%R)
           [[2 / 1; 3 / 1]; [2 / 2; 6 / 3]]%R 2 [1 / 2; 1 / 2]%R).
  - simpl. repeat constructor; lra.
  - reflexivity.
  - simpl. lia.
  - lia.
Defined.

(** X11.  The returns do not depend on the unit of the prices: over the
    real numbers, for a panel without a zero price, multiplying every
    price of each asset by a constant of that asset, not zero, leaves the
    array of price changes as it was. *)
Theorem returns_unit_free (rows : list (list R)) (cs : list R) :
  Forall (fun row => List.length row = List.length cs) rows ->
  Forall (fun c => c <> 0%R) cs ->
  all_entries (fun p => p <> 0%R) (np_array rows) ->
  price_change_array (np_array (map (zip_with Rmult cs) rows))
  = price_change_array (np_array rows).
Proof.
  intros Hlen Hc Hnz.
  destruct rows as [|r0 rows]; [reflexivity|].
  unfold np_array in Hnz. simpl in Hnz.
  change (map (zip_with Rmult cs) (r0 :: rows))
    with (zip_with Rmult cs r0 :: map (zip_with Rmult cs) rows).
  unfold np_array. rewrite !price_change_Arr2.
  assert (Hl0 : List.length r0 = List.length cs) by (now inversion Hlen).
  f_equal.
  - simpl. now rewrite length_map.
  - rewrite zip_with_length, Hl0. apply Nat.min_id.
  - apply (scaled_returns Hlen Hc Hnz).
Qed.

Lemma returns_unit_free_witness :
  price_change_array
    (np_array (map (zip_with Rmult [100; 2]) [[1; 1]; [2; 3]; [4; 6]])%R)
  = price_change_array (np_array [[1; 1]; [2; 3]; [4; 6]]%R).
Proof.
  apply (@returns_unit_free [[1; 1]; [2; 3]; [4; 6]]%R [100; 2]%R).
  - repeat constructor.
  - repeat constructor; lra.
  - simpl. repeat constructor; lra.
Defined.

(** ** The order of the tickers *)

Lemma string_compare_trans (s1 s2 s3 : string) :
  String.compare s1 s2 <> Gt -> String.compare s2 s3 <> Gt ->
  String.compare s1 s3 <> Gt.
Proof.
  revert s2 s3. induction s1 as [|a s1 IH]; intros [|b s2] [|c s3];
    simpl; try congruence.
  unfold Ascii.compare.
  destruct (N.compare_spec (N_of_ascii a) (N_of_ascii b));
    destruct (N.compare_spec (N_of_ascii b) (N_of_ascii c));
    destruct (N.compare_spec (N_of_ascii a) (N_of_ascii c));
    try congruence; try lia.
  apply IH.
Qed.

Lemma string_leb_trans (s1 s2 s3 : string) :
  String.leb s1 s2 = true -> String.leb s2 s3 = true ->
  String.leb s1 s3 = true.
Proof.
  unfold String.leb. intros H12 H23.
  pose proof (string_compare_trans s1 s2 s3) as H.
  destruct (String.compare s1 s2); destruct (String.compare s2 s3);
    destruct (String.compare s1 s3); try reflexivity; try discriminate;
    exfalso; apply H; congruence.
Qed.

Section SortedUnique.
Variable A : Type.
Variable leb : A -> A -> bool.
Hypothesis leb_total : forall a b, leb a b = true \/ leb b a = true.
Hypothesis leb_trans :
  forall a b c, leb a b = true -> leb b c = true -> leb a c = true.
Hypothesis leb_antisym : forall a b, leb a b = true -> leb b a = true -> a = b.

Lemma strongly_sorted_unique (l l' : list A) :
  StronglySorted (le_of leb) l -> StronglySorted (le_of leb) l' ->
  Permutation l l' -> l = l'.
Proof.
  revert l'. induction l as [|a l IH]; intros l' Hs Hs' Hp.
  - apply Permutation_nil in Hp. now subst.
  - destruct l' as [|b l'].
    + apply Permutation_sym, Permutation_nil in Hp. discriminate.
    + inversion Hs as [|? ? Hsl Hal]; subst.
      inversion Hs' as [|? ? Hsl' Hbl']; subst.
      assert (Hab : a = b).
      { assert (Ha : In a (b :: l'))
          by (eapply Permutation_in; [exact Hp | now left]).
        assert (Hb : In b (a :: l))
          by (eapply Permutation_in;
              [apply Permutation_sym; exact Hp | now left]).
        destruct Ha as [->|Ha]; [reflexivity|].
        destruct Hb as [->|Hb]; [reflexivity|].
        rewrite Forall_forall in Hal, Hbl'.
        apply leb_antisym; [apply (Hal b Hb) | apply (Hbl' a Ha)]. }
      subst b. f_equal. apply IH; try assumption.
      eapply Permutation_cons_inv. exact Hp.
Qed.

Lemma sorted_strongly (l : list A) : StronglySorted (le_of leb) (sorted leb l).
Proof.
  apply Sorted_StronglySorted.
  - intros a b c. unfold le_of. apply leb_trans.
  - now apply sorted_Sorted.
Qed.

Lemma sorted_order_free (l l' : list A) :
  Permutation l l' -> sorted leb l = sorted leb l'.
Proof.
  intros Hp. apply strongly_sorted_unique; try apply sorted_strongly.
  rewrite (sorted_perm leb l), (sorted_perm leb l'). exact Hp.
Qed.
End SortedUnique.

Lemma filter_perm (A : Type) (f : A -> bool) (l l' : list A) :
  Permutation l l' -> Permutation (filter f l) (filter f l').
Proof.
  induction 1 as [|x l l' _ IH|x y l|l l' l'' _ IH1 _ IH2]; simpl.
  - constructor.
  - destruct (f x); [now constructor | assumption].
  - destruct (f x); destruct (f y); try reflexivity. apply perm_swap.
  - now transitivity (filter f l').
Qed.

(** X12.  The canonical order of the tickers does not depend on the order
    in which the assets were inserted into the mapping: two mappings with
    the same entries give the same ticker list. *)
Theorem canonical_tickers_order_free (F : Type) (MINIMUM_AMOUNT_DATA : Z)
        (sd sd' : StockDict F) :
  wf sd -> Permutation sd sd' ->
  canonical_tickers (_filterStocks MINIMUM_AMOUNT_DATA sd)
  = canonical_tickers (_filterStocks MINIMUM_AMOUNT_DATA sd').
Proof.
  intros Hwf Hp.
  assert (Hwf' : wf sd').
  { unfold wf, keys in *. eapply Permutation_NoDup; [|exact Hwf].
    now apply Permutation_map. }
  rewrite !filterStocks_filter by assumption.
  unfold canonical_tickers, keys.
  apply (@sorted_order_free _ String.leb String.leb_total string_leb_trans
                            String.leb_antisym).
  apply Permutation_map. now apply filter_perm.
Qed.

Lemma canonical_tickers_order_free_witness :
  canonical_tickers (_filterStocks 1 two_assets_full)
  = canonical_tickers
      (_filterStocks 1
         [ stock_of "A"%string [(1%Z, 1%float); (2%Z, 2%float);
                              (3%Z, 4%float)];
           stock_of "B"%string [(3%Z, 6%float); (1%Z, 1%float);
                              (2%Z, 3%float)] ]).
Proof.
  apply (@canonical_tickers_order_free float 1 two_assets_full).
  - wf_literal.
  - apply perm_swap.
Defined.

(** ** The mapping that [getInputData] builds *)

Section InputDataFacts.
Variables F Raw Expense : Type.
Variable Stock_ : Raw -> Ticker -> Expense -> Stock F.
Variable raw_data : dict Ticker Raw.
Variable expense_ratio_dict : dict Ticker Expense.

Lemma in_set_inv (K V : Type) (eq_dec : forall x y : K, {x = y} + {x <> y})
      (d : dict K V) k0 v k s :
  In (k, s) (set eq_dec d k0 v) -> (k = k0 /\ s = v) \/ In (k, s) d.
Proof.
  induction d as [|[k' v'] d IH]; simpl.
  - intros [H|[]]. injection H as <- <-. auto.
  - destruct (eq_dec k0 k') as [->|Hne]; simpl.
    + intros [H|H]; [injection H as <- <-|]; auto.
    + intros [H|H]; [auto|]. destruct (IH H); auto.
Qed.

Lemma subscript_Ok (V : Type) (d : dict Ticker V) tk :
  In tk (keys d) -> exists v, get_s d tk = Some v /\ subscript d tk = Ok v.
Proof.
  intros Hin. apply in_keys_get with (eq_dec := string_dec) in Hin as [v Hv].
  exists v. unfold subscript. change (get_s d tk = Some v) in Hv.
  now rewrite Hv.
Qed.

Lemma subscript_Raise (V : Type) (d : dict Ticker V) tk :
  ~ In tk (keys d) -> subscript d tk = Raise KeyError.
Proof.
  intros Hn. unfold subscript.
  destruct (get_s d tk) as [v|] eqn:E; [|reflexivity].
  exfalso. apply Hn. unfold get_s in E. eapply get_Some_in_keys. exact E.
Qed.

Lemma create_stocks_spec (ticker_list : list Ticker) (acc : StockDict F) :
  (forall raw tk e, ticker (Stock_ raw tk e) = tk) ->
  (forall tk, In tk ticker_list ->
     In tk (keys raw_data) /\ In tk (keys expense_ratio_dict)) ->
  wf acc -> keyed_by_ticker acc ->
  exists sd,
    create_stocks Stock_ raw_data expense_ratio_dict ticker_list acc
    = Ok sd /\
    wf sd /\ keyed_by_ticker sd /\
    (forall tk, In tk (keys sd) <-> In tk (keys acc) \/ In tk ticker_list) /\
    (forall tk, In tk ticker_list ->
       exists raw e, get_s raw_data tk = Some raw /\
                     get_s expense_ratio_dict tk = Some e /\
                     get_s sd tk = Some (Stock_ raw tk e)) /\
    (forall tk, ~ In tk ticker_list -> get_s sd tk = get_s acc tk).
Proof.
  intros Hctor. revert acc.
  induction ticker_list as [|tk0 rest IH]; intros acc Hpres Hwf Hkey.
  - exists acc. simpl. repeat split; auto; tauto.
  - destruct (Hpres tk0 (or_introl eq_refl)) as [Hr He].
    destruct (@subscript_Ok _ raw_data tk0 Hr) as (raw & Hraw & Hsr).
    destruct (@subscript_Ok _ expense_ratio_dict tk0 He)
      as (e & Hexp & Hse).
    simpl. rewrite Hsr, Hse. simpl.
    set (acc' := set_s acc tk0 (Stock_ raw tk0 e)).
    destruct (IH acc') as (sd & Hsd & Hwf' & Hkey' & Hkeys & Hget & Hrest).
    + intros tk Htk. apply Hpres. now right.
    + unfold acc', set_s. now apply wf_set.
    + intros k s Hin. unfold acc', set_s in Hin.
      apply in_set_inv in Hin as [[-> ->]|Hin]; [apply Hctor | now apply Hkey].
    + exists sd. split; [exact Hsd|]. split; [exact Hwf'|].
      split; [exact Hkey'|]. split; [|split].
      * intros tk. rewrite Hkeys. unfold acc', set_s.
        rewrite in_keys_set. simpl. intuition congruence.
      * intros tk Htk.
        destruct (in_dec string_dec tk rest) as [Hin|Hnot]; [now apply Hget|].
        destruct Htk as [<-|Htk]; [|contradiction].
        exists raw, e. repeat split; try assumption.
        rewrite (Hrest tk0 Hnot). unfold acc', get_s, set_s.
        apply get_set_same.
      * intros tk Hn. rewrite Hrest by (intros Hin; apply Hn; now right).
        unfold acc', get_s, set_s. apply get_set_other.
        intros ->. apply Hn. now left.
Qed.

Lemma create_stocks_raises (ticker_list : list Ticker) (acc : StockDict F)
      (tk : Ticker) :
  In tk ticker_list ->
  ~ In tk (keys raw_data) \/ ~ In tk (keys expense_ratio_dict) ->
  create_stocks Stock_ raw_data expense_ratio_dict ticker_list acc
  = Raise KeyError.
Proof.
  revert acc. induction ticker_list as [|tk0 rest IH]; intros acc Hin Hmiss;
    [destruct Hin|].
  simpl.
  destruct (in_dec string_dec tk0 (keys raw_data)) as [Hr|Hr];
    [|now rewrite (@subscript_Raise _ raw_data tk0 Hr)].
  destruct (@subscript_Ok _ raw_data tk0 Hr) as (raw & _ & ->). simpl.
  destruct (in_dec string_dec tk0 (keys expense_ratio_dict)) as [He|He];
    [|now rewrite (@subscript_Raise _ expense_ratio_dict tk0 He)].
  destruct (@subscript_Ok _ expense_ratio_dict tk0 He) as (e & _ & ->).
  simpl.
  destruct Hin as [->|Hin]; [tauto|].
  now apply IH.
Qed.

Lemma present_or_missing (ticker_list : list Ticker) :
  (forall tk, In tk ticker_list ->
     In tk (keys raw_data) /\ In tk (keys expense_ratio_dict)) \/
  (exists tk, In tk ticker_list /\
     (~ In tk (keys raw_data) \/ ~ In tk (keys expense_ratio_dict))).
Proof.
  induction ticker_list as [|tk0 rest IH]; [left; intros tk []|].
  destruct (in_dec string_dec tk0 (keys raw_data)) as [Hr|Hr];
    [|right; exists tk0; simpl; auto].
  destruct (in_dec string_dec tk0 (keys expense_ratio_dict)) as [He|He];
    [|right; exists tk0; simpl; auto].
  destruct IH as [IH|(tk & Hin & Hm)].
  - left. intros tk [<-|Hin]; auto.
  - right. exists tk. simpl. auto.
Qed.
End InputDataFacts.

(** X13.  When every ticker of the list has raw data and an expense
    ratio, and the constructor of [Stock] keeps the ticker it is given, the
    loop of [getInputData] returns a mapping with distinct keys, keyed by
    the tickers of its stocks, whose keys are the tickers of the list (a
    ticker listed twice gives one entry), each bound to the stock built
    from its own raw data and expense ratio. *)
Theorem create_stocks_keyed (F Raw Expense : Type)
        (Stock_ : Raw -> Ticker -> Expense -> Stock F)
        (raw_data : dict Ticker Raw) (expense_ratio_dict : dict Ticker Expense)
        (ticker_list : list Ticker) :
  (forall raw tk e, ticker (Stock_ raw tk e) = tk) ->
  (forall tk, In tk ticker_list ->
     In tk (keys raw_data) /\ In tk (keys expense_ratio_dict)) ->
  exists sd,
    create_stocks Stock_ raw_data expense_ratio_dict ticker_list [] = Ok sd /\
    wf sd /\ keyed_by_ticker sd /\
    (forall tk, In tk (keys sd) <-> In tk ticker_list) /\
    (forall tk, In tk ticker_list ->
       exists raw e, get_s raw_data tk = Some raw /\
                     get_s expense_ratio_dict tk = Some e /\
                     get_s sd tk = Some (Stock_ raw tk e)).
Proof.
  intros Hctor Hpres.
  destruct (@create_stocks_spec F Raw Expense Stock_ raw_data
              expense_ratio_dict ticker_list [] Hctor Hpres)
    as (sd & Hsd & Hwf & Hkey & Hkeys & Hget & _).
  - constructor.
  - intros k s [].
  - exists sd. repeat split; try assumption.
    + intros Hin. apply Hkeys in Hin. destruct Hin as [[]|Hin]. exact Hin.
    + intros Hin. apply Hkeys. now right.
Qed.

Lemma create_stocks_keyed_witness :
  exists sd,
    create_stocks sample_Stock sample_raw_data sample_expenses
                  ["B"%string; "A"%string; "B"%string] [] = Ok sd /\
    wf sd /\ keyed_by_ticker sd /\
    (forall tk, In tk (keys sd)
                <-> In tk ["B"%string; "A"%string; "B"%string]) /\
    (forall tk, In tk ["B"%string; "A"%string; "B"%string] ->
       exists raw e, get_s sample_raw_data tk = Some raw /\
                     get_s sample_expenses tk = Some e /\
                     get_s sd tk = Some (sample_Stock raw tk e)).
Proof.
  apply (@create_stocks_keyed float (dict Date float) float sample_Stock
           sample_raw_data sample_expenses
           ["B"%string; "A"%string; "B"%string]).
  - reflexivity.
  - intros tk Htk. simpl in Htk. simpl.
    destruct Htk as [<-|[<-|[<-|[]]]]; auto.
Defined.

(** X14.  A ticker of the list without raw data, or without an expense
    ratio, makes the loop of [getInputData] raise [KeyError], whatever the
    other tickers are. *)
Theorem create_stocks_missing (F Raw Expense : Type)
        (Stock_ : Raw -> Ticker -> Expense -> Stock F)
        (raw_data : dict Ticker Raw) (expense_ratio_dict : dict Ticker Expense)
        (ticker_list : list Ticker) (tk : Ticker) :
  In tk ticker_list ->
  ~ In tk (keys raw_data) \/ ~ In tk (keys expense_ratio_dict) ->
  create_stocks Stock_ raw_data expense_ratio_dict ticker_list []
  = Raise KeyError.
Proof. intros Hin Hmiss. now apply create_stocks_raises with tk. Qed.

Lemma create_stocks_missing_witness :
  create_stocks sample_Stock sample_raw_data sample_expenses
                ["A"%string; "C"%string] [] = Raise KeyError.
Proof.
  apply (@create_stocks_missing float (dict Date float) float sample_Stock
           sample_raw_data sample_expenses ["A"%string; "C"%string]
           "C"%string).
  - simpl. auto.
  - left. simpl. intuition discriminate.
Defined.

(** X15.  When the constructor of [Stock] keeps the ticker it is given,
    creating the stocks and constructing the database raises [KeyError]
    if and only if a ticker of the list has no raw data or no expense
    ratio: with a keyed mapping at hand the database never looks up a
    ticker that is not there. *)
Theorem getInputData_KeyError (F Raw Expense : Type) (num : Numeric F)
        (Stock_ : Raw -> Ticker -> Expense -> Stock F)
        (MINIMUM_AMOUNT_DATA : Z) (ticker_list : list Ticker)
        (raw_data : dict Ticker Raw)
        (expense_ratio_dict : dict Ticker Expense) :
  (forall raw tk e, ticker (Stock_ raw tk e) = tk) ->
  (getInputData_stock_db Stock_ MINIMUM_AMOUNT_DATA ticker_list raw_data
                         expense_ratio_dict = Raise KeyError
   <->
   exists tk, In tk ticker_list /\
     (~ In tk (keys raw_data) \/ ~ In tk (keys expense_ratio_dict))).
Proof.
  intros Hctor. unfold getInputData_stock_db. split.
  - intros Hraise.
    destruct (present_or_missing raw_data expense_ratio_dict ticker_list)
      as [Hpres|Hmiss]; [exfalso|exact Hmiss].
    destruct (@create_stocks_spec F Raw Expense Stock_ raw_data
                expense_ratio_dict ticker_list [] Hctor Hpres)
      as (sd & Hsd & Hwf & Hkey & _).
    + constructor.
    + intros k s [].
    + rewrite Hsd in Hraise. simpl in Hraise.
      destruct (@init_keyed_cases F num MINIMUM_AMOUNT_DATA sd Hwf Hkey)
        as [[[db Hdb] _]|[Herr _]]; congruence.
  - intros (tk & Hin & Hmiss).
    now rewrite (@create_stocks_raises F Raw Expense Stock_ raw_data
                   expense_ratio_dict ticker_list [] tk Hin Hmiss).
Qed.

Lemma getInputData_KeyError_witness :
  getInputData_stock_db sample_Stock 1 ["A"%string; "C"%string]
                        sample_raw_data sample_expenses = Raise KeyError
  <->
  exists tk, In tk ["A"%string; "C"%string] /\
    (~ In tk (keys sample_raw_data) \/ ~ In tk (keys sample_expenses)).
Proof.
  apply (@getInputData_KeyError float (dict Date float) float Numeric_float
           sample_Stock 1 ["A"%string; "C"%string]
           sample_raw_data sample_expenses).
  reflexivity.
Defined.

(** X16.  With a single surviving asset the correlation is the 0-d array
    holding 1: over the real numbers, for returns of one column and two
    rows or more whose variance is not zero, [_getCorrelationArray]
    returns the covariance divided by itself. *)
Theorem single_asset_correlation (price_array : ndarray R)
        (ret : list (list R)) :
  all_entries (fun p => p <> 0%R) price_array ->
  price_change_array price_array = Arr2 (List.length ret) 1 ret ->
  2 <= List.length ret ->
  population_cov ret 0 0 <> 0%R ->
  _getCorrelationArray price_array = Arr0 1%R.
Proof.
  intros _ Hret HN Hvar. unfold _getCorrelationArray, np_corrcoef.
  rewrite Hret, np_cov_Arr2 by lia. rewrite squeeze_cov_one.
  f_equal. pose proof (@cov_entry_pos ret 0 HN Hvar) as Hpos.
  change (@fdiv R Numeric_R) with Rdiv. field. lra.
Qed.

Lemma single_asset_correlation_witness :
  _getCorrelationArray (Arr2 3 1 [[1]; [2]; [2]]%R) = Arr0 1%R.
Proof.
  apply (@single_asset_correlation (Arr2 3 1 [[1]; [2]; [2]]%R)
           [[2 / 1]; [2 / 2]]%R).
  - simpl. repeat constructor; lra.
  - reflexivity.
  - simpl. lia.
  - assert (E : population_cov [[2 / 1]; [2 / 2]]%R 0 0 = (1 / 4)%R)
      by (unfold population_cov, mean, fsum, column; simpl; field).
    rewrite E. lra.
Defined.
